(** * lipi: the hybrid markdown editing engine

    A shallow embedding of the contenteditable variant of
    [HybridMarkdownEditor] (line model, markdown cue renderer, caret
    translator, edit controller, autosave scheduler), and of the line
    model of the textarea variant.

    JavaScript strings are modelled as [string]: every [ascii] stands for
    one UTF-16 code unit below 256, so every string of the model is a
    string the program can receive.  Numbers that the program only uses as
    lengths, indices and offsets are [nat]. *)

From Stdlib Require Import String Ascii List Arith Bool Lia.
From Stdlib Require Import NArith DecimalString.
Import ListNotations.
Set Warnings "-register-all".
Open Scope list_scope.
Open Scope string_scope.

(** ** JavaScript string primitives *)

Module JS.

Definition nl : ascii := "010"%char.
Definition cr : ascii := "013"%char.

(** [s.split('\n')] and [s.split(/\n/)]: empty pieces are kept, the empty
    string splits into one empty piece. *)
Fixpoint split (sep : ascii) (s : string) : list string :=
  match s with
  | EmptyString => [EmptyString]
  | String c r =>
      if Ascii.eqb c sep then EmptyString :: split sep r
      else match split sep r with
           | [] => [String c EmptyString]
           | l :: ls => String c l :: ls
           end
  end.

(** [ls.join(sep)] *)
Fixpoint join (sep : string) (ls : list string) : string :=
  match ls with
  | [] => EmptyString
  | l :: rest =>
      match rest with
      | [] => l
      | _ :: _ => l ++ sep ++ join sep rest
      end
  end.

(** [s.slice(n)] and [s.slice(0, n)] for a non-negative [n]; both clamp
    at the end of the string. *)
Fixpoint sliceFrom (n : nat) (s : string) : string :=
  match n, s with
  | O, _ => s
  | S _, EmptyString => EmptyString
  | S k, String _ r => sliceFrom k r
  end.

Fixpoint sliceTo (n : nat) (s : string) : string :=
  match n, s with
  | O, _ => EmptyString
  | S _, EmptyString => EmptyString
  | S k, String c r => String c (sliceTo k r)
  end.

(** [s.startsWith(p)], the test a regex literal makes at one position *)
Fixpoint startsWith (p s : string) : bool :=
  match p, s with
  | EmptyString, _ => true
  | String _ _, EmptyString => false
  | String a p', String b s' => Ascii.eqb a b && startsWith p' s'
  end.

(** [s.includes(p)] *)
Fixpoint includes (p s : string) : bool :=
  startsWith p s ||
  match s with
  | EmptyString => false
  | String _ r => includes p r
  end.

(** The regex class [\s] on code units below 256: tab, line feed,
    vertical tab, form feed, carriage return, space, no-break space. *)
Definition isSpace (c : ascii) : bool :=
  let n := nat_of_ascii c in
  ((9 <=? n)%nat && (n <=? 13)%nat) || (n =? 32)%nat || (n =? 160)%nat.

(** The regex atom [.] (no [s] flag) rejects the line terminators. *)
Definition isLineTerminator (c : ascii) : bool :=
  Ascii.eqb c nl || Ascii.eqb c cr.

(** [s.replace(re, fn)] for a global regex [re] with one capture group
    that never matches the empty string.  [matchAt s] is the match of
    [re] anchored at the head of [s]: the captured group and the number
    of code units of the whole match.  The scan goes left to right;
    after a match it resumes behind the match ([skip] counts the code
    units of the match still to be passed over), after a failure one
    code unit further. *)
Fixpoint replaceAll (matchAt : string -> option (string * nat))
         (fn : string -> string) (skip : nat) (s : string) : string :=
  match s with
  | EmptyString => EmptyString
  | String c r =>
      match skip with
      | S k => replaceAll matchAt fn k r
      | O =>
          match matchAt s with
          | Some (g, n) => fn g ++ replaceAll matchAt fn (Nat.pred n) r
          | None => String c (replaceAll matchAt fn 0 r)
          end
      end
  end.

Definition replace matchAt fn (s : string) : string :=
  replaceAll matchAt fn 0 s.

(** [p] holds of every code unit of [s] *)
Fixpoint every (p : ascii -> bool) (s : string) : bool :=
  match s with
  | EmptyString => true
  | String c r => p c && every p r
  end.

Definition isNot (x : ascii) (c : ascii) : bool := negb (Ascii.eqb c x).

(** a string without a line feed *)
Definition newlineFree (l : string) : Prop := every (isNot nl) l = true.

(** [s.trim() === ''] : nothing but white space and line terminators *)
Definition isBlank (s : string) : bool := every isSpace s.

(** the regex class [\d] *)
Definition isDigit (c : ascii) : bool :=
  let n := nat_of_ascii c in (48 <=? n)%nat && (n <=? 57)%nat.

(** [(.+)$] at the head of [s]: the rest of the input, when it is not
    empty and holds no line terminator *)
Definition restOfLine (s : string) : option string :=
  match s with
  | EmptyString => None
  | String _ _ =>
      if every (fun c => negb (isLineTerminator c)) s then Some s else None
  end.

(** [arr.splice(start, 0, item)] on a copy of [arr]; [start] is clamped to
    the length *)
Definition insertAt {A} (start : nat) (item : A) (arr : list A) : list A :=
  (firstn start arr ++ item :: skipn start arr)%list.

End JS.

(** ** Line model (textarea variant: [value.split('\n')], [lines.join('\n')]) *)

Module LineModel.

Definition split (value : string) : list string := JS.split JS.nl value.

Definition join (lines : list string) : string :=
  JS.join (String JS.nl EmptyString) lines.

Fixpoint countNewlines (s : string) : nat :=
  match s with
  | EmptyString => 0
  | String c r => (if Ascii.eqb c JS.nl then 1 else 0) + countNewlines r
  end.

End LineModel.

(** ** Markdown cue renderer *)

Module Renderer.

Definition dquote : ascii := "034"%char.

(** [escapeHTML]: the replacer of the character class of ampersand,
    angle brackets, double quote and single quote *)
Definition escapeChar (c : ascii) : string :=
  if Ascii.eqb c "&" then "&amp;"
  else if Ascii.eqb c "<" then "&lt;"
  else if Ascii.eqb c ">" then "&gt;"
  else if Ascii.eqb c dquote then "&quot;"
  else if Ascii.eqb c "'" then "&#39;"
  else String c EmptyString.

Fixpoint escapeHTML (str : string) : string :=
  match str with
  | EmptyString => EmptyString
  | String c r => escapeChar c ++ escapeHTML r
  end.

(** [/^#\s/.test(line)] *)
Definition isHeading (line : string) : bool :=
  match line with
  | String c1 (String c2 _) => Ascii.eqb c1 "#" && JS.isSpace c2
  | _ => false
  end.

(** [(.+?)\*\*] behind an opening [**]: the shortest non-empty run of
    non-terminators that is followed by [**].  Returns the run and the
    code units consumed, the closing [**] included. *)
Fixpoint lazyUntilStars (s : string) : option (string * nat) :=
  match s with
  | EmptyString => None
  | String c r =>
      if JS.isLineTerminator c then None
      else if JS.startsWith "**" r then Some (String c EmptyString, 3)
      else match lazyUntilStars r with
           | Some (g, n) => Some (String c g, S n)
           | None => None
           end
  end.

(** [/\*\*(.+?)\*\*/] anchored at the head of [s] *)
Definition matchBold (s : string) : option (string * nat) :=
  if JS.startsWith "**" s then
    match lazyUntilStars (JS.sliceFrom 2 s) with
    | Some (g, n) => Some (g, 2 + n)
    | None => None
    end
  else None.

(** the longest prefix without a backtick, and what follows it *)
Fixpoint spanNonTick (s : string) : string * string :=
  match s with
  | EmptyString => (EmptyString, EmptyString)
  | String c r =>
      if Ascii.eqb c "`" then (EmptyString, s)
      else let (g, rest) := spanNonTick r in (String c g, rest)
  end.

(** [/`([^`]+)`/] anchored at the head of [s] *)
Definition matchCode (s : string) : option (string * nat) :=
  match s with
  | String c r =>
      if Ascii.eqb c "`" then
        match spanNonTick r with
        | (EmptyString, _) => None
        | (g, String _ _) => Some (g, 2 + String.length g)
        | (_, EmptyString) => None
        end
      else None
  | EmptyString => None
  end.

Definition cueStyle : string := "opacity:0.5;color:#94a3b8;user-select:none;".
Definition hashActiveStyle : string :=
  "opacity:0.5;color:#94a3b8;user-select:none;display:inline-block;width:1ch;".
Definition hashInactiveStyle : string :=
  "opacity:0;visibility:hidden;user-select:none;display:inline-block;width:0;".
Definition headingStyle : string := "font-weight:700;font-size:1.3em;".
Definition strongStyle : string := "font-weight:800;".
Definition codeStyle : string :=
  "background:#f1f5f9;padding:2px 4px;border-radius:4px;".

Definition boldActive (boldText : string) : string :=
  "<span style='" ++ cueStyle ++ "'>**</span><strong style='" ++ strongStyle
    ++ "'>" ++ boldText ++ "</strong><span style='" ++ cueStyle ++ "'>**</span>".

Definition boldInactive (boldText : string) : string :=
  "<strong style='" ++ strongStyle ++ "'>" ++ boldText ++ "</strong>".

Definition codeActive (codeText : string) : string :=
  "<span style='" ++ cueStyle ++ "'></span><code style='" ++ codeStyle
    ++ "'>" ++ escapeHTML codeText ++ "</code><span style='" ++ cueStyle
    ++ "'></span>".

Definition codeInactive (codeText : string) : string :=
  "<code style='" ++ codeStyle ++ "'>" ++ escapeHTML codeText ++ "</code>".

Definition renderMarkdownLine (line : string) (isActive : bool) : string :=
  if isHeading line then
    let hashStyle := if isActive then hashActiveStyle else hashInactiveStyle in
    "<span style='" ++ hashStyle ++ "'>#</span><span style='" ++ headingStyle
      ++ "'>" ++ JS.sliceFrom 1 line ++ "</span>"
  else
    let line1 :=
      if isActive then JS.replace matchBold boldActive line
      else JS.replace matchBold boldInactive line in
    if isActive then JS.replace matchCode codeActive line1
    else JS.replace matchCode codeInactive line1.

(** [lines.map((line, idx) => ...)] *)
Fixpoint renderLines (lines : list string) (idx activeLineIdx : nat)
  : list string :=
  match lines with
  | [] => []
  | line :: rest =>
      renderMarkdownLine line (idx =? activeLineIdx)%nat
        :: renderLines rest (S idx) activeLineIdx
  end.

Definition markdownToHTML (text : string) (activeLineIdx : nat) : string :=
  JS.join "<br>" (renderLines (JS.split JS.nl text) 0 activeLineIdx).

(** a code unit that takes no part in a bold or code pair *)
Definition isInert (c : ascii) : bool := JS.isNot "*" c && JS.isNot "`" c.

(** the code units [escapeHTML] removes from its output *)
Definition isMarkup (c : ascii) : bool :=
  Ascii.eqb c "<" || Ascii.eqb c ">" || Ascii.eqb c dquote || Ascii.eqb c "'".

(** the code units [escapeHTML] replaces *)
Definition isSpecial (c : ascii) : bool := Ascii.eqb c "&" || isMarkup c.

End Renderer.

(** ** The editor surface

    [editor.innerHTML = html] hands the markup to the browser.  The tree
    the browser builds is modelled for the markup [markdownToHTML] emits:
    the six start tags of the renderer with their [style] attribute, the
    three end tags, [<br>], the five character references of [escapeHTML]
    and character data.  [parseHTML] answers [None] on anything else, so
    whatever it answers [Some] on is read the way the browser reads it. *)

Module Dom.

Inductive Node :=
| Text (data : string)
| Elem (tag style : string) (kids : list Node).

Inductive Token :=
| TOpen (tag style : string)
| TClose (tag : string)
| TBr
| TChar (c : ascii).

Definition startTags : list (string * string) :=
  [ ("span", Renderer.cueStyle); ("span", Renderer.hashActiveStyle);
    ("span", Renderer.hashInactiveStyle); ("span", Renderer.headingStyle);
    ("strong", Renderer.strongStyle); ("code", Renderer.codeStyle) ].

Definition endTags : list string := ["span"; "strong"; "code"].

Definition charRefs : list (string * ascii) :=
  [ ("&amp;", "&"%char); ("&lt;", "<"%char); ("&gt;", ">"%char);
    ("&quot;", Renderer.dquote); ("&#39;", "'"%char) ].

Definition startMarkup (tag style : string) : string :=
  "<" ++ tag ++ " style='" ++ style ++ "'>".

Definition endMarkup (tag : string) : string := "</" ++ tag ++ ">".

Fixpoint firstStartTag (ts : list (string * string)) (s : string)
  : option (Token * nat) :=
  match ts with
  | [] => None
  | (tag, style) :: rest =>
      let m := startMarkup tag style in
      if JS.startsWith m s then Some (TOpen tag style, String.length m)
      else firstStartTag rest s
  end.

Fixpoint firstEndTag (ts : list string) (s : string) : option (Token * nat) :=
  match ts with
  | [] => None
  | tag :: rest =>
      let m := endMarkup tag in
      if JS.startsWith m s then Some (TClose tag, String.length m)
      else firstEndTag rest s
  end.

Fixpoint firstCharRef (rs : list (string * ascii)) (s : string)
  : option (Token * nat) :=
  match rs with
  | [] => None
  | (m, c) :: rest =>
      if JS.startsWith m s then Some (TChar c, String.length m)
      else firstCharRef rest s
  end.

(** character data that stands for itself: not the start of markup or of
    a character reference, and not a code unit the parser rewrites or
    drops (carriage return, NUL) *)
Definition isData (c : ascii) : bool :=
  negb (Ascii.eqb c "<" || Ascii.eqb c "&" || Ascii.eqb c JS.cr
        || Ascii.eqb c zero).

(** the token at the head of [s] and its length in code units *)
Definition tokenAt (s : string) : option (Token * nat) :=
  match s with
  | EmptyString => None
  | String c _ =>
      if Ascii.eqb c "<" then
        if JS.startsWith "<br>" s then Some (TBr, 4)
        else match firstStartTag startTags s with
             | Some t => Some t
             | None => firstEndTag endTags s
             end
      else if Ascii.eqb c "&" then firstCharRef charRefs s
      else if isData c then Some (TChar c, 1)
      else None
  end.

Fixpoint tokenize (skip : nat) (s : string) : option (list Token) :=
  match s with
  | EmptyString => Some []
  | String _ r =>
      match skip with
      | S k => tokenize k r
      | O =>
          match tokenAt s with
          | Some (t, n) =>
              match tokenize (Nat.pred n) r with
              | Some ts => Some (t :: ts)
              | None => None
              end
          | None => None
          end
      end
  end.

(** an element that is still open: its tag, its style and the children
    that came before it in its own parent (last one first) *)
Record Frame := { ftag : string; fstyle : string; fbefore : list Node }.

(** character data joins the text node that ends the current child
    list, or starts a new one *)
Definition addChar (c : ascii) (cur : list Node) : list Node :=
  match cur with
  | Text d :: before => Text (d ++ String c EmptyString) :: before
  | _ => Text (String c EmptyString) :: cur
  end.

(** tree construction; [cur] holds the children of the innermost open
    element, last one first *)
Fixpoint build (ts : list Token) (cur : list Node) (stack : list Frame)
  : option (list Node) :=
  match ts with
  | [] =>
      match stack with
      | [] => Some (rev cur)
      | _ :: _ => None
      end
  | TChar c :: rest => build rest (addChar c cur) stack
  | TBr :: rest => build rest (Elem "br" "" [] :: cur) stack
  | TOpen tag style :: rest =>
      build rest [] ({| ftag := tag; fstyle := style; fbefore := cur |} :: stack)
  | TClose tag :: rest =>
      match stack with
      | [] => None
      | f :: stack' =>
          if String.eqb (ftag f) tag then
            build rest (Elem tag (fstyle f) (rev cur) :: fbefore f) stack'
          else None
      end
  end.

Definition parseHTML (html : string) : option (list Node) :=
  match tokenize 0 html with
  | Some ts => build ts [] []
  | None => None
  end.

(** what the walks see of a text node: its data, whether
    [getComputedStyle(node.parentElement).userSelect] is [none], and
    whether the parent is laid out with [visibility:hidden] *)
Record Leaf := { data : string; cue : bool; hidden : bool }.

Definition userSelectNone (style : string) : bool :=
  JS.includes "user-select:none" style.

Definition visibilityHidden (style : string) : bool :=
  JS.includes "visibility:hidden" style.

(** the text nodes in document order, as a [TreeWalker] with
    [SHOW_TEXT] yields them; [user-select] and [visibility] left unset
    on an element take the parent's value *)
Fixpoint textLeaves (pcue phid : bool) (n : Node) : list Leaf :=
  match n with
  | Text d => [ {| data := d; cue := pcue; hidden := phid |} ]
  | Elem _ style kids =>
      let c := userSelectNone style || pcue in
      let h := visibilityHidden style || phid in
      flat_map (textLeaves c h) kids
  end.

Definition leavesOf (nodes : list Node) : list Leaf :=
  flat_map (textLeaves false false) nodes.



(** characters carried by text that is not hidden *)
Definition nonHiddenCount (nodes : list Node) : nat :=
  fold_right (fun l acc => (if hidden l then 0 else String.length (data l)) + acc)
             0 (leavesOf nodes).

(** characters carried by text outside the cue spans, the text that
    [setCaretToOffset] counts *)
Definition nonCueCount (nodes : list Node) : nat :=
  fold_right (fun l acc => (if cue l then 0 else String.length (data l)) + acc)
             0 (leavesOf nodes).

(** character data joins the current child list one code unit at a time *)
Fixpoint addText (l : string) (cur : list Node) : list Node :=
  match l with
  | EmptyString => cur
  | String c r => addText r (addChar c cur)
  end.

(** the parser resumed inside the open elements [stack] with the
    children [cur] already built *)
Definition parseFrom (cur : list Node) (stack : list Frame) (html : string)
  : option (list Node) :=
  match tokenize 0 html with
  | Some ts => build ts cur stack
  | None => None
  end.

(** a code unit that is neither markdown nor markup *)
Definition isPlain (c : ascii) : bool := isData c && Renderer.isInert c.


(** a code unit the parser neither rewrites nor drops *)
Definition isReadable (c : ascii) : bool :=
  negb (Ascii.eqb c JS.cr || Ascii.eqb c zero).

End Dom.

(** ** Caret translator *)

Module Caret.

(** a collapsed selection inside the editor *)
Inductive Point :=
| InText (node offset : nat)   (* in the text node with this index in document order *)
| EndOfLastChild.              (* behind the contents of the editor's last child *)

(** the loop of [setCaretToOffset] from the text node with index [i] on *)
Fixpoint walk (leaves : list Dom.Leaf) (i current offset : nat) : option Point :=
  match leaves with
  | [] => None
  | l :: rest =>
      if Dom.cue l then walk rest (S i) current offset
      else
        let next := current + String.length (Dom.data l) in
        if (offset <=? next)%nat then Some (InText i (Nat.max 0 (offset - current)))
        else walk rest (S i) next offset
  end.

(** [setCaretToOffset(element, offset)]: the selection it leaves, given
    the selection [sel] it found *)
Definition setCaretToOffset (element : list Dom.Node) (offset : nat)
           (sel : option Point) : option Point :=
  match walk (Dom.leavesOf element) 0 0 offset with
  | Some p => Some p
  | None =>
      match element with
      | [] => sel
      | _ :: _ => Some EndOfLastChild
      end
  end.

Fixpoint textLength (leaves : list Dom.Leaf) : nat :=
  match leaves with
  | [] => 0
  | l :: rest => String.length (Dom.data l) + textLength rest
  end.

(** [getCaretCharacterOffsetWithin(element)]: the length of the string
    of the range from the start of the editor to the caret, which is
    the data of every text node in between *)
Definition getCaretCharacterOffsetWithin (element : list Dom.Node)
           (sel : option Point) : nat :=
  match sel with
  | None => 0
  | Some (InText i k) => textLength (firstn i (Dom.leavesOf element)) + k
  | Some EndOfLastChild => textLength (Dom.leavesOf element)
  end.

(** render, place the caret at [o], read the caret back *)
Definition roundTrip (d : string) (activeLineIdx o : nat) : option nat :=
  match Dom.parseHTML (Renderer.markdownToHTML d activeLineIdx) with
  | Some element =>
      Some (getCaretCharacterOffsetWithin element
              (setCaretToOffset element o None))
  | None => None
  end.

(** text outside the cue spans among [leaves] *)
Fixpoint plainLength (leaves : list Dom.Leaf) : nat :=
  match leaves with
  | [] => 0
  | l :: rest =>
      (if Dom.cue l then 0 else String.length (Dom.data l)) + plainLength rest
  end.

(** text of the cue spans among [leaves] *)
Fixpoint cueLength (leaves : list Dom.Leaf) : nat :=
  match leaves with
  | [] => 0
  | l :: rest =>
      (if Dom.cue l then String.length (Dom.data l) else 0) + cueLength rest
  end.

(** the inner loop of [setCaretByLineCol] over the pieces of one text
    node: the caret, or the line count to go on with *)
Fixpoint lineColPieces (pieces : list string) (node currentLine lineIdx col : nat)
  : Point + nat :=
  match pieces with
  | [] => inr currentLine
  | piece :: rest =>
      if (currentLine =? lineIdx)%nat
      then inl (InText node (Nat.min col (String.length piece)))
      else lineColPieces rest node (S currentLine) lineIdx col
  end.

(** the outer loop of [setCaretByLineCol] over the text nodes *)
Fixpoint lineColWalk (leaves : list Dom.Leaf) (node currentLine lineIdx col : nat)
  : option Point :=
  match leaves with
  | [] => None
  | l :: rest =>
      match lineColPieces (JS.split JS.nl (Dom.data l)) node currentLine
                          lineIdx col with
      | inl p => Some p
      | inr line => lineColWalk rest (S node) line lineIdx col
      end
  end.

(** [setCaretByLineCol(element, lineIdx, col)] *)
Definition setCaretByLineCol (element : list Dom.Node) (lineIdx col : nat)
           (sel : option Point) : option Point :=
  match lineColWalk (Dom.leavesOf element) 0 0 lineIdx col with
  | Some p => Some p
  | None => sel
  end.

End Caret.

(** ** Autosave scheduler

    The timers of the event loop are explicit: [setTimeout] files a timer
    under a fresh id, [clearTimeout] withdraws the timers of an id, and
    [tick] lets one millisecond pass and runs the callbacks that fall
    due, oldest first. *)

Module Autosave.

Definition AUTOSAVE_KEY : string := "hybrid-markdown-editor-autosave".

Inductive SaveStatus := idle | saving | saved.

(** the two closures the component hands to [setTimeout] *)
Inductive Callback :=
| WriteSnapshot (val : string)   (* setItem(AUTOSAVE_KEY, val); status saved; arm BackToIdle *)
| BackToIdle.                    (* status idle *)

Record Timer := { tid : nat; due : nat; callback : Callback }.

Record Sched := {
  now : nat;
  nextTimerId : nat;
  timers : list Timer;
  autosaveTimeout : option nat;
  saveStatus : SaveStatus;
  localStorage : string -> option string;
  writes : list (string * string)
}.

Definition init (storage : string -> option string) : Sched :=
  {| now := 0; nextTimerId := 1; timers := []; autosaveTimeout := None;
     saveStatus := idle; localStorage := storage; writes := [] |}.

Definition setSaveStatus (v : SaveStatus) (s : Sched) : Sched :=
  {| now := now s; nextTimerId := nextTimerId s; timers := timers s;
     autosaveTimeout := autosaveTimeout s; saveStatus := v;
     localStorage := localStorage s; writes := writes s |}.

Definition setAutosaveTimeout (r : option nat) (s : Sched) : Sched :=
  {| now := now s; nextTimerId := nextTimerId s; timers := timers s;
     autosaveTimeout := r; saveStatus := saveStatus s;
     localStorage := localStorage s; writes := writes s |}.

Definition setTimers (ts : list Timer) (s : Sched) : Sched :=
  {| now := now s; nextTimerId := nextTimerId s; timers := ts;
     autosaveTimeout := autosaveTimeout s; saveStatus := saveStatus s;
     localStorage := localStorage s; writes := writes s |}.

(** [setTimeout(cb, delay)]: the id it returns and the state it leaves *)
Definition setTimeout (cb : Callback) (delay : nat) (s : Sched) : nat * Sched :=
  (nextTimerId s,
   {| now := now s; nextTimerId := S (nextTimerId s);
      timers := timers s ++ [ {| tid := nextTimerId s; due := now s + delay;
                                 callback := cb |} ];
      autosaveTimeout := autosaveTimeout s; saveStatus := saveStatus s;
      localStorage := localStorage s; writes := writes s |}).

Definition clearTimeout (id : nat) (s : Sched) : Sched :=
  setTimers (filter (fun t => negb (tid t =? id)%nat) (timers s)) s.

(** [localStorage.setItem(key, val)] *)
Definition setItem (key val : string) (s : Sched) : Sched :=
  {| now := now s; nextTimerId := nextTimerId s; timers := timers s;
     autosaveTimeout := autosaveTimeout s; saveStatus := saveStatus s;
     localStorage := fun k => if String.eqb k key then Some val
                              else localStorage s k;
     writes := writes s ++ [(key, val)] |}.

Definition getItem (key : string) (s : Sched) : option string :=
  localStorage s key.

Definition triggerAutoSave (val : string) (s : Sched) : Sched :=
  let s1 := setSaveStatus saving s in
  let s2 := match autosaveTimeout s1 with
            | Some id => clearTimeout id s1
            | None => s1
            end in
  let (id, s3) := setTimeout (WriteSnapshot val) 1000 s2 in
  setAutosaveTimeout (Some id) s3.

(** a timer falls due: its callback runs *)
Definition fire (s : Sched) (t : Timer) : Sched :=
  match callback t with
  | WriteSnapshot val =>
      snd (setTimeout BackToIdle 1000
             (setSaveStatus saved (setItem AUTOSAVE_KEY val s)))
  | BackToIdle => setSaveStatus idle s
  end.

Definition isDue (t0 : nat) (t : Timer) : bool := (due t <=? t0)%nat.

Definition tick (s : Sched) : Sched :=
  let t1 := S (now s) in
  let s1 :=
    {| now := t1; nextTimerId := nextTimerId s;
       timers := filter (fun t => negb (isDue t1 t)) (timers s);
       autosaveTimeout := autosaveTimeout s; saveStatus := saveStatus s;
       localStorage := localStorage s; writes := writes s |} in
  fold_left fire (filter (isDue t1) (timers s)) s1.

Fixpoint advance (ms : nat) (s : Sched) : Sched :=
  match ms with
  | O => s
  | S k => advance k (tick s)
  end.

(** what the host and the user do to the scheduler *)
Inductive Event := Notify (val : string) | Wait (ms : nat).

Definition step (s : Sched) (e : Event) : Sched :=
  match e with
  | Notify val => triggerAutoSave val s
  | Wait ms => advance ms s
  end.

Definition run (es : list Event) (s : Sched) : Sched := fold_left step es s.

Definition isDebounce (t : Timer) : bool :=
  match callback t with
  | WriteSnapshot _ => true
  | BackToIdle => false
  end.

(** the debounce timers that are live *)
Definition debounceTimers (s : Sched) : list Timer :=
  filter isDebounce (timers s).

(** the writes the callbacks of [ts] make, in order *)
Definition snapshotsOf (ts : list Timer) : list (string * string) :=
  flat_map (fun t => match callback t with
                     | WriteSnapshot val => [(AUTOSAVE_KEY, val)]
                     | BackToIdle => []
                     end) ts.

(** what is stored under the autosave key after the writes [ws] *)
Definition storedAfter (ws : list (string * string)) (before : option string)
  : option string :=
  fold_left (fun _ w => Some (snd w)) ws before.

(** every live debounce timer is the one the ref points at, and there is
    at most one *)
Definition wellTracked (s : Sched) : bool :=
  (List.length (debounceTimers s) <=? 1)%nat
  && forallb (fun t => match autosaveTimeout s with
                       | Some id => (tid t =? id)%nat
                       | None => false
                       end) (debounceTimers s).

(** every pending timer falls due within the next second *)
Definition timely (s : Sched) : bool :=
  forallb (fun t => (now s <? due t)%nat && (due t <=? now s + 1000)%nat)
          (timers s).

(** the indicator shows [saving] or [saved] only while a timer is pending *)
Definition indicatorBacked (s : Sched) : bool :=
  match saveStatus s with
  | idle => true
  | _ => negb (Nat.eqb (List.length (timers s)) 0)
  end.

End Autosave.

(** ** Edit controller

    What a handler does to the editor surface and to the host is kept as
    a log of effects in program order.  What a handler reads from the
    surface when it starts ([getCaretCharacterOffsetWithin(editor)],
    [editor.innerText]) is an argument of the handler. *)

Module Controller.

Inductive Effect :=
| SetInnerHTML (html : string)       (* editor.innerHTML = html *)
| SetCaretToOffset (offset : nat)    (* setCaretToOffset(editor, offset) *)
| OnChange (markdown : string)       (* onChange(markdown) *)
| Focus.                             (* editor.focus() *)

Record State := {
  value : string;                (* the prop *)
  onChange : bool;               (* whether the host passed a callback *)
  currentValueRef : string;
  lastCaretOffsetRef : nat;
  lastLoadedValueRef : string;
  activeLineIdx : nat;
  sched : Autosave.Sched;
  effects : list Effect
}.

(** first render: the refs start from the prop, the surface from
    [dangerouslySetInnerHTML] *)
Definition init (value : string) (onChange : bool)
           (storage : string -> option string) : State :=
  {| value := value; onChange := onChange; currentValueRef := value;
     lastCaretOffsetRef := 0; lastLoadedValueRef := value;
     activeLineIdx := 0; sched := Autosave.init storage;
     effects := [SetInnerHTML (Renderer.markdownToHTML value 0)] |}.

Definition emit (es : list Effect) (st : State) : State :=
  {| value := value st; onChange := onChange st;
     currentValueRef := currentValueRef st;
     lastCaretOffsetRef := lastCaretOffsetRef st;
     lastLoadedValueRef := lastLoadedValueRef st;
     activeLineIdx := activeLineIdx st; sched := sched st;
     effects := effects st ++ es |}.


Definition setCurrentValue (v : string) (st : State) : State :=
  {| value := value st; onChange := onChange st; currentValueRef := v;
     lastCaretOffsetRef := lastCaretOffsetRef st;
     lastLoadedValueRef := lastLoadedValueRef st;
     activeLineIdx := activeLineIdx st; sched := sched st;
     effects := effects st |}.

Definition setLastCaretOffset (n : nat) (st : State) : State :=
  {| value := value st; onChange := onChange st;
     currentValueRef := currentValueRef st; lastCaretOffsetRef := n;
     lastLoadedValueRef := lastLoadedValueRef st;
     activeLineIdx := activeLineIdx st; sched := sched st;
     effects := effects st |}.


Definition setActiveLineIdx (n : nat) (st : State) : State :=
  {| value := value st; onChange := onChange st;
     currentValueRef := currentValueRef st;
     lastCaretOffsetRef := lastCaretOffsetRef st;
     lastLoadedValueRef := lastLoadedValueRef st;
     activeLineIdx := n; sched := sched st; effects := effects st |}.


Definition triggerAutoSave (val : string) (st : State) : State :=
  {| value := value st; onChange := onChange st;
     currentValueRef := currentValueRef st;
     lastCaretOffsetRef := lastCaretOffsetRef st;
     lastLoadedValueRef := lastLoadedValueRef st;
     activeLineIdx := activeLineIdx st;
     sched := Autosave.triggerAutoSave val (sched st);
     effects := effects st |}.

(** the loop of [getActiveLineIndex] *)
Fixpoint activeLineLoop (lines : list string) (count idx caretOffset : nat)
  : nat :=
  match lines with
  | [] => idx
  | line :: rest =>
      if (caretOffset <=? count + String.length line)%nat then idx
      else activeLineLoop rest (count + String.length line + 1) (S idx)
                          caretOffset
  end.

Definition getActiveLineIndex (text : string) (caretOffset : nat) : nat :=
  activeLineLoop (JS.split JS.nl text) 0 0 caretOffset.







(** [onInput]: [plain] is the text of the surface after the user's edit *)
Definition handleInput (caretOffset : nat) (plain : string) (st : State)
  : State :=
  let st1 := setCurrentValue plain (setLastCaretOffset caretOffset st) in
  let newActiveLineIdx := getActiveLineIndex plain caretOffset in
  let st2 := setActiveLineIdx newActiveLineIdx st1 in
  let st3 :=
    emit [SetInnerHTML (Renderer.markdownToHTML (currentValueRef st2)
                                                newActiveLineIdx);
          SetCaretToOffset caretOffset] st2 in
  triggerAutoSave plain st3.


(** [onKeyDown]: only Enter is handled *)
Definition handleKeyDown (key : string) (caretOffset : nat) (st : State)
  : State :=
  if String.eqb key "Enter" then
    let plain :=
      JS.sliceTo caretOffset (currentValueRef st)
        ++ String JS.nl EmptyString
        ++ JS.sliceFrom caretOffset (currentValueRef st) in
    let st1 := setLastCaretOffset (caretOffset + 1) (setCurrentValue plain st) in
    let before := JS.sliceTo caretOffset plain in
    let linesBefore := JS.split JS.nl before in
    let currentLineIdx := List.length linesBefore - 1 in
    let newLineIdx := currentLineIdx + 1 in
    emit [SetInnerHTML (Renderer.markdownToHTML (currentValueRef st1) newLineIdx);
          SetCaretToOffset (caretOffset + 1); Focus]
         (setActiveLineIdx newLineIdx st1)
  else st.



(** What the effects mean on the surface: an assignment to [innerHTML]
    replaces the tree (a caret inside the old tree collapses to the start
    of the editor, where it reads as offset 0), [setCaretToOffset] moves
    the caret in the tree that is there.  The tree is [None] when the
    markup is not one [Dom.parseHTML] covers. *)
Record Surface := {
  tree : option (list Dom.Node);
  caret : option Caret.Point
}.

Definition perform (s : Surface) (e : Effect) : Surface :=
  match e with
  | SetInnerHTML html => {| tree := Dom.parseHTML html; caret := None |}
  | SetCaretToOffset offset =>
      match tree s with
      | Some element =>
          {| tree := tree s;
             caret := Caret.setCaretToOffset element offset (caret s) |}
      | None => s
      end
  | OnChange _ => s
  | Focus => s
  end.

Definition surfaceOf (es : list Effect) : Surface :=
  fold_left perform es {| tree := Some []; caret := None |}.

(** what [getCaretCharacterOffsetWithin(editor)] returns on a surface *)
Definition readCaret (s : Surface) : option nat :=
  match tree s with
  | Some element => Some (Caret.getCaretCharacterOffsetWithin element (caret s))
  | None => None
  end.

(** time passes for the component's timers *)
Definition wait (ms : nat) (st : State) : State :=
  {| value := value st; onChange := onChange st;
     currentValueRef := currentValueRef st;
     lastCaretOffsetRef := lastCaretOffsetRef st;
     lastLoadedValueRef := lastLoadedValueRef st;
     activeLineIdx := activeLineIdx st;
     sched := Autosave.advance ms (sched st);
     effects := effects st |}.

End Controller.

(** ** Textarea variant ([HybridMarkdownEditor.tsx])

    A transparent textarea over a rendered overlay.  The component keeps
    the lines of the text; the textarea shows [lines.join('\n')]. *)

Module Textarea.

Record State := {
  lines : list string;
  activeLine : nat;
  emitted : list string          (* the calls of onChange, oldest first *)
}.

Definition init (value : string) : State :=
  {| lines := JS.split JS.nl value; activeLine := 0; emitted := [] |}.

(** the [value] of the textarea *)
Definition textareaValue (st : State) : string :=
  JS.join (String JS.nl EmptyString) (lines st).

(** [onChange] of the textarea with [e.target.value] *)
Definition handleInput (newValue : string) (st : State) : State :=
  {| lines := JS.split JS.nl newValue; activeLine := activeLine st;
     emitted := (emitted st ++ [newValue])%list |}.

(** [onSelect] with [e.target.selectionStart] *)
Definition handleSelect (pos : nat) (st : State) : State :=
  let before := JS.sliceTo pos (textareaValue st) in
  {| lines := lines st;
     activeLine := List.length (JS.split JS.nl before) - 1;
     emitted := emitted st |}.

(** the longest prefix of hashes, and what follows it *)
Fixpoint spanHashes (s : string) : string * string :=
  match s with
  | EmptyString => (EmptyString, EmptyString)
  | String c r =>
      if Ascii.eqb c "#" then let (h, rest) := spanHashes r in (String c h, rest)
      else (EmptyString, s)
  end.

(** the heading regex of the overlay, one or more hashes, one space and
    any text up to the end of the line: the hashes and the text *)
Definition matchHeading (line : string) : option (string * string) :=
  match spanHashes line with
  | (EmptyString, _) => None
  | (hashes, String c text) =>
      if Ascii.eqb c " " && JS.every (fun x => negb (JS.isLineTerminator x)) text
      then Some (hashes, text) else None
  | (_, EmptyString) => None
  end.

(** what the overlay shows for a line *)
Inductive OverlayLine :=
| Heading (faded : option string) (text : string)   (* bold; the hashes when active *)
| Plain (line : string)
| Placeholder.                                      (* a zero-width space *)

Definition overlayLine (line : string) (isActive : bool) : OverlayLine :=
  match matchHeading line with
  | Some (hashes, text) =>
      if isActive then Heading (Some hashes) text else Heading None text
  | None =>
      match line with
      | EmptyString => Placeholder
      | String _ _ => Plain line
      end
  end.

End Textarea.

(** ** Textarea variant with block patterns ([MARKDOWN_PATTERNS])

    The second component of the same file: the textarea variant with list
    continuation on Enter. *)

Module Blocks.

(** [/^(\*|\-|\+)\s(.+)$/]: the bullet and the text *)
Definition bulletList (line : string) : option (string * string) :=
  match line with
  | String b (String w rest) =>
      if (Ascii.eqb b "*" || Ascii.eqb b "-" || Ascii.eqb b "+") && JS.isSpace w
      then match JS.restOfLine rest with
           | Some text => Some (String b EmptyString, text)
           | None => None
           end
      else None
  | _ => None
  end.

(** the longest prefix of digits, and what follows it *)
Fixpoint spanDigits (s : string) : string * string :=
  match s with
  | EmptyString => (EmptyString, EmptyString)
  | String c r =>
      if JS.isDigit c then let (d, rest) := spanDigits r in (String c d, rest)
      else (EmptyString, s)
  end.

(** [/^(\d+\.)\s(.+)$/]: the number with its dot, and the text *)
Definition numberList (line : string) : option (string * string) :=
  match spanDigits line with
  | (EmptyString, _) => None
  | (digits, String dot (String w rest)) =>
      if Ascii.eqb dot "." && JS.isSpace w
      then match JS.restOfLine rest with
           | Some text => Some (digits ++ ".", text)
           | None => None
           end
      else None
  | (_, _) => None
  end.

(** [/^(>)\s(.+)$/] *)
Definition blockquote (line : string) : option (string * string) :=
  match line with
  | String q (String w rest) =>
      if Ascii.eqb q ">" && JS.isSpace w
      then match JS.restOfLine rest with
           | Some text => Some (">", text)
           | None => None
           end
      else None
  | _ => None
  end.

(** [/^(#{1,6})\s(.+)$/]: one to six hashes, white space, the text *)
Definition heading (line : string) : option (string * string) :=
  match Textarea.spanHashes line with
  | (EmptyString, _) => None
  | (hashes, String w rest) =>
      if (String.length hashes <=? 6)%nat && JS.isSpace w
      then match JS.restOfLine rest with
           | Some text => Some (hashes, text)
           | None => None
           end
      else None
  | (_, EmptyString) => None
  end.

(** the value of a run of decimal digits *)
Fixpoint digitsValue (acc : N) (digits : string) : N :=
  match digits with
  | EmptyString => acc
  | String c r =>
      digitsValue (acc * 10 + N.of_nat (nat_of_ascii c - 48))%N r
  end.

(** the text of [parseInt(number) + 1] for a number below [2^53], where
    the platform's arithmetic is exact *)
Definition nextNumber (number : string) : string :=
  NilZero.string_of_uint
    (N.to_uint (digitsValue 0 (fst (spanDigits number)) + 1)%N).

Section Continuation.

(** the text the platform prints for [parseInt(number) + 1] *)
Variable formatNext : string -> string.

(** the line Enter adds behind [currentLine] *)
Definition continuation (currentLine : string) : string :=
  if JS.isBlank currentLine then EmptyString
  else match bulletList currentLine with
       | Some (bullet, _) => bullet ++ " "
       | None =>
           match numberList currentLine with
           | Some (number, _) => formatNext number ++ ". "
           | None =>
               match blockquote currentLine with
               | Some _ => "> "
               | None => EmptyString
               end
           end
       end.

(** [onKeyDown] for Enter, with [e.target.selectionStart]; [None] when
    [lines[currentLineIndex]] is [undefined] and [.match] throws *)
Definition handleKeyDown (pos : nat) (st : Textarea.State)
  : option Textarea.State :=
  let before := JS.sliceTo pos (Textarea.textareaValue st) in
  let currentLineIndex := List.length (JS.split JS.nl before) - 1 in
  match nth_error (Textarea.lines st) currentLineIndex with
  | None => None
  | Some currentLine =>
      let newLines :=
        JS.insertAt (currentLineIndex + 1) (continuation currentLine)
                    (Textarea.lines st) in
      Some {| Textarea.lines := newLines;
              Textarea.activeLine := Textarea.activeLine st;
              Textarea.emitted :=
                (Textarea.emitted st
                 ++ [JS.join (String JS.nl EmptyString) newLines])%list |}
  end.

End Continuation.

(** the kind of block [renderMarkdownLine] shows for a line, with the
    marker it fades in on the active line and the text *)
Inductive Block :=
| HeadingBlock (hashes text : string)
| BulletBlock (bullet text : string)
| NumberBlock (number text : string)
| QuoteBlock (quote text : string)
| TextBlock (line : string).

Definition classify (line : string) : Block :=
  match heading line with
  | Some (hashes, text) => HeadingBlock hashes text
  | None =>
      match bulletList line with
      | Some (bullet, text) => BulletBlock bullet text
      | None =>
          match numberList line with
          | Some (number, text) => NumberBlock number text
          | None =>
              match blockquote line with
              | Some (quote, text) => QuoteBlock quote text
              | None => TextBlock line
              end
          end
      end
  end.

End Blocks.

(** * Properties *)

Section LineModelFacts.

Lemma split_nonempty sep s : JS.split sep s <> [].
Proof.
  destruct s as [|c r]; simpl; [discriminate|].
  destruct (Ascii.eqb c sep); [discriminate|].
  destruct (JS.split sep r); discriminate.
Qed.

Lemma join_split s : LineModel.join (LineModel.split s) = s.
Proof.
  unfold LineModel.join, LineModel.split.
  induction s as [|c r IH]; [reflexivity|].
  simpl. destruct (Ascii.eqb_spec c JS.nl) as [->|Hc].
  - pose proof (split_nonempty JS.nl r) as Hne.
    simpl. destruct (JS.split JS.nl r) as [|l ls]; [congruence|].
    simpl in *. now rewrite IH.
  - pose proof (split_nonempty JS.nl r) as Hne.
    destruct (JS.split JS.nl r) as [|l ls]; [congruence|].
    simpl in *. destruct ls; simpl in *; now rewrite <- IH.
Qed.

Lemma split_trailing_newline s :
  LineModel.split (s ++ String JS.nl EmptyString)
  = (LineModel.split s ++ [EmptyString])%list.
Proof.
  unfold LineModel.split.
  induction s as [|c r IH]; [reflexivity|].
  simpl. destruct (Ascii.eqb c JS.nl).
  - now rewrite IH.
  - rewrite IH. pose proof (split_nonempty JS.nl r) as Hne.
    destruct (JS.split JS.nl r); [congruence|reflexivity].
Qed.

Lemma split_length s :
  List.length (LineModel.split s) = S (LineModel.countNewlines s).
Proof.
  unfold LineModel.split.
  induction s as [|c r IH]; [reflexivity|].
  simpl. destruct (Ascii.eqb c JS.nl); simpl; [now rewrite IH|].
  pose proof (split_nonempty JS.nl r) as Hne.
  destruct (JS.split JS.nl r); [congruence|]. simpl in *. lia.
Qed.

End LineModelFacts.

(** C9. The line model round-trips: for every string [s], joining the
    lines of [s] with a newline gives [s] back; the split keeps empty
    lines (there is exactly one line more than there are newlines), and a
    trailing newline gives a trailing empty line. *)
Theorem line_model_round_trip :
  (forall s, LineModel.join (LineModel.split s) = s)
  /\ (forall s, List.length (LineModel.split s) = S (LineModel.countNewlines s))
  /\ (forall s, LineModel.split (s ++ String JS.nl EmptyString)
                = (LineModel.split s ++ [EmptyString])%list).
Proof.
  split; [exact join_split|].
  split; [exact split_length | exact split_trailing_newline].
Qed.

(** ** Strings *)

Section StringFacts.

Lemma length_append (a b : string) :
  String.length (a ++ b) = String.length a + String.length b.
Proof. induction a as [|c a IH]; simpl; [reflexivity | now rewrite IH]. Qed.

Lemma append_assoc (a b c : string) : (a ++ b) ++ c = a ++ (b ++ c).
Proof. induction a as [|x a IH]; simpl; [reflexivity | now rewrite IH]. Qed.

Lemma append_empty_r (a : string) : a ++ EmptyString = a.
Proof. induction a as [|x a IH]; simpl; [reflexivity | now rewrite IH]. Qed.

Lemma slice_append n s : JS.sliceTo n s ++ JS.sliceFrom n s = s.
Proof.
  revert s; induction n as [|n IH]; intros [|c s]; simpl; try reflexivity.
  now rewrite IH.
Qed.

Lemma sliceTo_length n s :
  n <= String.length s -> String.length (JS.sliceTo n s) = n.
Proof.
  revert s; induction n as [|n IH]; intros [|c s]; simpl; intros H;
    try reflexivity; try lia.
  rewrite IH; [reflexivity | lia].
Qed.

(** slicing the spliced string up to the caret gives the old prefix *)
Lemma sliceTo_splice n s t :
  n <= String.length s ->
  JS.sliceTo n (JS.sliceTo n s ++ t) = JS.sliceTo n s.
Proof.
  revert s; induction n as [|n IH]; intros [|c s]; simpl; intros H;
    try reflexivity; try lia.
  rewrite IH; [reflexivity | lia].
Qed.

Lemma split_append_newline a b :
  JS.split JS.nl (a ++ String JS.nl b)
  = (JS.split JS.nl a ++ JS.split JS.nl b)%list.
Proof.
  induction a as [|c a IH]; [reflexivity|].
  simpl. destruct (Ascii.eqb c JS.nl); rewrite IH; [reflexivity|].
  pose proof (split_nonempty JS.nl a) as Hne.
  destruct (JS.split JS.nl a); [congruence | reflexivity].
Qed.


End StringFacts.

(** ** Edit controller: Enter *)



(** The scenario on the surface: the markup is [a<br>bc], the caret is
    asked to offset 2, lands in the text node [bc] behind its first
    character, since the walk gives the line break no width, and reads
    back as 2. *)
Example enter_scenario_surface :
  let st' := Controller.handleKeyDown "Enter" 1
               (Controller.init "abc" true (fun _ => None)) in
  Controller.surfaceOf (Controller.effects st')
  = {| Controller.tree :=
         Some [Dom.Text "a"; Dom.Elem "br" "" []; Dom.Text "bc"];
       Controller.caret := Some (Caret.InText 1 1) |}
  /\ Controller.readCaret (Controller.surfaceOf (Controller.effects st'))
     = Some 2.
Proof. split; reflexivity. Qed.

(** ** Edit controller: documents from outside *)



(** ** Edit controller: the snapshot found on mount *)



(** ** Renderer: inline code on the active line *)


(** ** Caret translator: where the walks agree *)

Section CaretFacts.

Import Caret.

Lemma textLength_app (a b : list Dom.Leaf) :
  textLength (a ++ b)%list = textLength a + textLength b.
Proof. induction a as [|l a IH]; simpl; [reflexivity | rewrite IH; lia]. Qed.

Lemma walk_finds (suf : list Dom.Leaf) : forall pre o,
  forallb (fun l => negb (Dom.cue l)) suf = true ->
  suf <> [] ->
  textLength pre <= o -> o <= textLength pre + textLength suf ->
  exists j k,
    walk suf (List.length pre) (textLength pre) o = Some (InText j k)
    /\ textLength (firstn j (pre ++ suf)%list) + k = o.
Proof.
  induction suf as [|l rest IH]; intros pre o Hcue Hne Hlo Hhi; [congruence|].
  simpl in Hcue. apply andb_prop in Hcue as [Hl Hrest].
  apply negb_true_iff in Hl. simpl. rewrite Hl.
  destruct (Nat.leb_spec o (textLength pre + String.length (Dom.data l)))
    as [Hin|Hout].
  - exists (List.length pre), (Nat.max 0 (o - textLength pre)).
    split; [reflexivity|].
    rewrite firstn_app, Nat.sub_diag, firstn_all. simpl.
    rewrite app_nil_r. lia.
  - simpl in Hhi.
    assert (Hr : rest <> []) by (intros ->; simpl in Hhi; lia).
    destruct (IH (pre ++ [l])%list o Hrest Hr) as (j & k & Hw & Hk).
    + rewrite textLength_app. simpl. lia.
    + rewrite textLength_app. simpl. lia.
    + rewrite length_app, textLength_app in Hw. simpl in Hw.
      rewrite Nat.add_0_r, Nat.add_1_r in Hw.
      rewrite <- app_assoc in Hk. simpl in Hk.
      now exists j, k.
Qed.

(** On a surface without cue text the two walks are inverse to each
    other for every offset within the text of the surface. *)
Lemma round_trip_without_cues (element : list Dom.Node) (o : nat) :
  forallb (fun l => negb (Dom.cue l)) (Dom.leavesOf element) = true ->
  o <= textLength (Dom.leavesOf element) ->
  getCaretCharacterOffsetWithin element (setCaretToOffset element o None) = o.
Proof.
  intros Hcue Ho. unfold setCaretToOffset.
  destruct (Dom.leavesOf element) as [|l ls] eqn:Hleaves.
  - simpl in Ho. replace o with 0 by lia.
    destruct element; unfold getCaretCharacterOffsetWithin; simpl walk;
      cbv iota; [reflexivity|]. now rewrite Hleaves.
  - destruct (walk_finds (l :: ls) [] o Hcue) as (j & k & Hw & Hk);
      [discriminate | simpl; lia | exact Ho |].
    simpl List.length in Hw. simpl textLength in Hw at 1.
    rewrite Hw. simpl. rewrite Hleaves. exact Hk.
Qed.

End CaretFacts.

(** ** Caret translator: the two walks *)

(** C1.  [setCaretToOffset] passes over the text of the cue spans and
    [getCaretCharacterOffsetWithin] counts it; neither sees a line break.
    On the active line ["# Hi"] offset 1 comes back as 2; behind a plain
    first line, on the inactive line ["# Hi"], offset 3 comes back as 4;
    on the two lines [a], [b] offset 3 comes back as 2; on the active
    line ["**b**"] offset 1 comes back as 3. *)
Theorem offset_round_trip_drifts :
  Caret.roundTrip "# Hi" 0 1 = Some 2
  /\ Caret.roundTrip ("x" ++ String JS.nl "# Hi") 0 3 = Some 4
  /\ Caret.roundTrip ("a" ++ String JS.nl "b") 0 3 = Some 2
  /\ Caret.roundTrip "**b**" 0 1 = Some 3.
Proof. repeat split. Qed.

(** ** Autosave scheduler *)

Section AutosaveFacts.

Import Autosave.

Lemma filter_comm {A} (p q : A -> bool) (l : list A) :
  filter p (filter q l) = filter q (filter p l).
Proof.
  induction l as [|x l IH]; simpl; [reflexivity|].
  destruct (q x) eqn:Hq, (p x) eqn:Hp; simpl; rewrite ?Hq, ?Hp, IH; reflexivity.
Qed.

Lemma snapshotsOf_debounce (ts : list Timer) :
  snapshotsOf (filter isDebounce ts) = snapshotsOf ts.
Proof.
  induction ts as [|t ts IH]; simpl; [reflexivity|].
  unfold isDebounce at 1. destruct (callback t) eqn:Hc; simpl;
    rewrite ?Hc, IH; reflexivity.
Qed.

Lemma fire_all (ts : list Timer) : forall s,
  let s' := fold_left fire ts s in
  debounceTimers s' = debounceTimers s
  /\ writes s' = (writes s ++ snapshotsOf ts)%list
  /\ localStorage s' AUTOSAVE_KEY
     = storedAfter (snapshotsOf ts) (localStorage s AUTOSAVE_KEY)
  /\ autosaveTimeout s' = autosaveTimeout s
  /\ now s' = now s.
Proof.
  induction ts as [|t ts IH]; intros s; simpl.
  - rewrite app_nil_r. repeat split.
  - destruct (IH (fire s t)) as (Hd & Hw & Hl & Ha & Hn).
    rewrite Hd, Hw, Hl, Ha, Hn. clear IH Hd Hw Hl Ha Hn.
    unfold fire. destruct (callback t) as [val|]; simpl.
    + unfold debounceTimers. simpl. rewrite filter_app. simpl.
      rewrite app_nil_r, <- app_assoc. repeat split.
    + repeat split.
Qed.

Lemma tick_spec (s : Sched) :
  debounceTimers (tick s)
  = filter (fun t => negb (isDue (S (now s)) t)) (debounceTimers s)
  /\ writes (tick s)
     = (writes s
        ++ snapshotsOf (filter (isDue (S (now s))) (debounceTimers s)))%list
  /\ localStorage (tick s) AUTOSAVE_KEY
     = storedAfter (snapshotsOf (filter (isDue (S (now s))) (debounceTimers s)))
                   (localStorage s AUTOSAVE_KEY)
  /\ autosaveTimeout (tick s) = autosaveTimeout s
  /\ now (tick s) = S (now s).
Proof.
  unfold tick.
  match goal with |- context [fold_left fire ?ts ?s0] =>
    destruct (fire_all ts s0) as (Hd & Hw & Hl & Ha & Hn) end.
  cbv zeta in *. rewrite Hd, Hw, Hl, Ha, Hn. simpl.
  unfold debounceTimers at 1 3 4. simpl.
  rewrite (filter_comm (isDue (S (now s))) isDebounce), snapshotsOf_debounce.
  rewrite filter_comm. repeat split.
Qed.

Lemma advance_quiet (n : nat) : forall s,
  debounceTimers s = [] ->
  debounceTimers (advance n s) = []
  /\ writes (advance n s) = writes s
  /\ localStorage (advance n s) AUTOSAVE_KEY = localStorage s AUTOSAVE_KEY.
Proof.
  induction n as [|n IH]; intros s Hs; simpl; [now rewrite Hs|].
  destruct (tick_spec s) as (Hd & Hw & Hl & _ & _).
  rewrite Hs in Hd, Hw, Hl. simpl in Hd, Hw, Hl. rewrite app_nil_r in Hw.
  destruct (IH (tick s) Hd) as (Hd' & Hw' & Hl').
  rewrite Hd', Hw', Hl', Hw, Hl. repeat split.
Qed.

Lemma advance_pending (n : nat) : forall s t,
  debounceTimers s = [t] -> now s + n < due t ->
  debounceTimers (advance n s) = [t]
  /\ writes (advance n s) = writes s
  /\ autosaveTimeout (advance n s) = autosaveTimeout s
  /\ now (advance n s) = now s + n.
Proof.
  induction n as [|n IH]; intros s t Hs Hlt; simpl.
  - rewrite Hs, Nat.add_0_r. repeat split.
  - destruct (tick_spec s) as (Hd & Hw & _ & Ha & Hn).
    rewrite Hs in Hd, Hw. simpl in Hd, Hw. unfold isDue in Hd, Hw.
    destruct (Nat.leb_spec (due t) (S (now s))) as [Hle|Hgt]; [lia|].
    simpl in Hd, Hw. rewrite app_nil_r in Hw.
    destruct (IH (tick s) t Hd) as (Hd' & Hw' & Ha' & Hn'); [lia|].
    rewrite Hd', Hw', Ha', Hn', Hw, Ha, Hn. repeat split. lia.
Qed.

Lemma advance_fires (n : nat) : forall s t,
  debounceTimers s = [t] -> now s < due t -> due t <= now s + n ->
  debounceTimers (advance n s) = []
  /\ writes (advance n s) = (writes s ++ snapshotsOf [t])%list
  /\ localStorage (advance n s) AUTOSAVE_KEY
     = storedAfter (snapshotsOf [t]) (localStorage s AUTOSAVE_KEY).
Proof.
  induction n as [|n IH]; intros s t Hs Hlt Hle; simpl; [lia|].
  destruct (tick_spec s) as (Hd & Hw & Hl & _ & Hn).
  rewrite Hs in Hd, Hw, Hl. simpl in Hd, Hw, Hl. unfold isDue in Hd, Hw, Hl.
  destruct (Nat.leb_spec (due t) (S (now s))) as [Hdue|Hnot];
    simpl in Hd, Hw, Hl.
  - destruct (advance_quiet n (tick s) Hd) as (Hd' & Hw' & Hl').
    rewrite Hd', Hw', Hl', Hw, Hl. repeat split.
  - rewrite app_nil_r in Hw.
    destruct (IH (tick s) t Hd) as (Hd' & Hw' & Hl'); [lia | lia |].
    rewrite Hd', Hw', Hl', Hw, Hl. repeat split.
Qed.

Lemma wellTracked_tick (s : Sched) :
  wellTracked s = true -> wellTracked (tick s) = true.
Proof.
  unfold wellTracked. destruct (tick_spec s) as (Hd & _ & _ & Ha & _).
  rewrite Hd, Ha. intros H. apply andb_prop in H as [Hlen Hall].
  destruct (debounceTimers s) as [|t [|t' l]]; simpl in *; try discriminate.
  - reflexivity.
  - destruct (isDue (S (now s)) t); simpl; [reflexivity|].
    now rewrite Hall.
Qed.

Lemma wellTracked_advance (n : nat) : forall s,
  wellTracked s = true -> wellTracked (advance n s) = true.
Proof.
  induction n as [|n IH]; intros s H; simpl; [exact H|].
  apply IH, wellTracked_tick, H.
Qed.

(** a call supersedes whatever was pending *)
Lemma notify_supersedes (val : string) (s : Sched) :
  wellTracked s = true ->
  let s' := triggerAutoSave val s in
  debounceTimers s'
  = [ {| tid := nextTimerId s; due := now s + 1000;
         callback := WriteSnapshot val |} ]
  /\ wellTracked s' = true
  /\ writes s' = writes s
  /\ now s' = now s.
Proof.
  intros H. apply andb_prop in H as [Hlen Hall].
  assert (Hd : debounceTimers (triggerAutoSave val s)
               = [ {| tid := nextTimerId s; due := now s + 1000;
                      callback := WriteSnapshot val |} ]).
  { unfold triggerAutoSave, debounceTimers in *. simpl.
    destruct (autosaveTimeout s) as [id|]; simpl.
    - rewrite filter_app, filter_comm. simpl.
      destruct (filter isDebounce (timers s)) as [|t [|t' l]];
        simpl in *; try discriminate; [reflexivity|].
      rewrite andb_true_r in Hall. now rewrite Hall.
    - rewrite filter_app. simpl.
      destruct (filter isDebounce (timers s)) as [|t l];
        simpl in *; [reflexivity | discriminate]. }
  cbv zeta. split; [exact Hd|]. split.
  - unfold wellTracked. rewrite Hd. simpl.
    unfold triggerAutoSave. simpl. destruct (autosaveTimeout s); simpl;
      now rewrite Nat.eqb_refl.
  - unfold triggerAutoSave. simpl.
    destruct (autosaveTimeout s); simpl; split; reflexivity.
Qed.

Lemma wellTracked_run (es : list Event) : forall s,
  wellTracked s = true -> wellTracked (run es s) = true.
Proof.
  unfold run. induction es as [|e es IH]; intros s H; simpl; [exact H|].
  apply IH. destruct e as [val|ms]; simpl.
  - now apply notify_supersedes.
  - now apply wellTracked_advance.
Qed.

End AutosaveFacts.

(** C8.  From a state in which the ref tracks the pending timer, three
    calls with [A], [B], [C], the second and third within one second of
    the first, and then a second of quiet: one write happens, it writes
    [C] under the autosave key, and no debounce timer is left.  On every
    run at most one debounce timer is live at any moment, and after a
    call the one live timer carries the value of that call. *)
Theorem autosave_coalesces (s : Autosave.Sched) (A B C : string)
        (d1 d2 d3 : nat) :
  Autosave.wellTracked s = true -> d1 + d2 < 1000 -> 1000 <= d3 ->
  let s' := Autosave.run
              [Autosave.Notify A; Autosave.Wait d1; Autosave.Notify B;
               Autosave.Wait d2; Autosave.Notify C; Autosave.Wait d3] s in
  Autosave.writes s' = (Autosave.writes s ++ [(Autosave.AUTOSAVE_KEY, C)])%list
  /\ Autosave.getItem Autosave.AUTOSAVE_KEY s' = Some C
  /\ Autosave.debounceTimers s' = []
  /\ (forall es, List.length (Autosave.debounceTimers (Autosave.run es s)) <= 1)
  /\ (forall es val,
         exists t,
           Autosave.debounceTimers (Autosave.run (es ++ [Autosave.Notify val]) s)
           = [t]
           /\ Autosave.callback t = Autosave.WriteSnapshot val).
Proof.
  intros Hwf Hd12 Hd3. cbv zeta.
  split; [|split; [|split; [|split]]].
  4: { intros es. pose proof (wellTracked_run es s Hwf) as H.
       apply andb_prop in H as [H _]. now apply Nat.leb_le in H. }
  4: { intros es val. unfold Autosave.run. rewrite fold_left_app. simpl.
       destruct (notify_supersedes val (fold_left Autosave.step es s)
                   (wellTracked_run es s Hwf)) as (H & _).
       eexists. split; [exact H | reflexivity]. }
  all: unfold Autosave.run; simpl.
  all: destruct (notify_supersedes A s Hwf) as (Ha & Hwa & Hwra & Hna).
  all: set (sa := Autosave.triggerAutoSave A s) in *.
  all: destruct (advance_pending d1 sa _ Ha) as (Ha1 & Hwr1 & _ & Hn1);
         [cbn [Autosave.due]; lia|].
  all: pose proof (wellTracked_advance d1 sa Hwa) as Hw1.
  all: set (s1 := Autosave.advance d1 sa) in *.
  all: destruct (notify_supersedes B s1 Hw1) as (Hb & Hwb & Hwrb & Hnb).
  all: set (sb := Autosave.triggerAutoSave B s1) in *.
  all: destruct (advance_pending d2 sb _ Hb) as (Hb2 & Hwr2 & _ & Hn2);
         [cbn [Autosave.due]; lia|].
  all: pose proof (wellTracked_advance d2 sb Hwb) as Hw2.
  all: set (s2 := Autosave.advance d2 sb) in *.
  all: destruct (notify_supersedes C s2 Hw2) as (Hc & Hwc & Hwrc & Hnc).
  all: set (sc := Autosave.triggerAutoSave C s2) in *.
  all: destruct (advance_fires d3 sc _ Hc) as (Hf & Hwr3 & Hl3);
         [cbn [Autosave.due]; lia | cbn [Autosave.due]; lia |].
  - rewrite Hwr3, Hwrc, Hwr2, Hwrb, Hwr1, Hwra. reflexivity.
  - unfold Autosave.getItem. rewrite Hl3. reflexivity.
  - exact Hf.
Qed.

(** The scenario of the claim from the initial state, with waits of
    200 ms, 300 ms and one second. *)
Lemma autosave_coalesces_witness :
  Autosave.wellTracked (Autosave.init (fun _ => None)) = true
  /\ 200 + 300 < 1000 /\ 1000 <= 1000
  /\ Autosave.writes
       (Autosave.run
          [Autosave.Notify "A"; Autosave.Wait 200; Autosave.Notify "B";
           Autosave.Wait 300; Autosave.Notify "C"; Autosave.Wait 1000]
          (Autosave.init (fun _ => None)))
     = [(Autosave.AUTOSAVE_KEY, "C")].
Proof.
  split; [reflexivity|]. split; [lia|]. split; [lia|].
  apply (autosave_coalesces (Autosave.init (fun _ => None)) "A" "B" "C"
           200 300 1000); [reflexivity | lia | lia].
Defined.

(** ** Renderer *)

Section RendererFacts.

Lemma every_append p a b :
  JS.every p (a ++ b) = JS.every p a && JS.every p b.
Proof.
  induction a as [|c a IH]; simpl; [reflexivity|].
  now rewrite IH, andb_assoc.
Qed.

Lemma every_impl (p q : ascii -> bool) s :
  (forall c, p c = true -> q c = true) ->
  JS.every p s = true -> JS.every q s = true.
Proof.
  intros Hpq. induction s as [|c s IH]; simpl; [reflexivity|].
  intros H. apply andb_prop in H as [Hc Hs].
  now rewrite (Hpq c Hc), IH.
Qed.

(** a regex that matches nowhere leaves the string alone *)
Lemma replace_no_match matchAt fn (p : ascii -> bool) s :
  (forall c r, p c = true -> matchAt (String c r) = None) ->
  JS.every p s = true -> JS.replace matchAt fn s = s.
Proof.
  intros Hm. unfold JS.replace.
  induction s as [|c s IH]; simpl; [reflexivity|].
  intros H. apply andb_prop in H as [Hc Hs].
  now rewrite (Hm c s Hc), IH.
Qed.

Lemma matchBold_no_star c r :
  JS.isNot "*" c = true -> Renderer.matchBold (String c r) = None.
Proof.
  unfold JS.isNot, Renderer.matchBold. intros H. apply negb_true_iff in H.
  cbn [JS.startsWith]. rewrite Ascii.eqb_sym. now rewrite H.
Qed.

Lemma matchCode_no_tick c r :
  JS.isNot "`" c = true -> Renderer.matchCode (String c r) = None.
Proof.
  unfold JS.isNot, Renderer.matchCode. intros H.
  apply negb_true_iff in H. now rewrite H.
Qed.

Lemma replace_bold_inert fn s :
  JS.every (JS.isNot "*") s = true -> JS.replace Renderer.matchBold fn s = s.
Proof. apply replace_no_match, matchBold_no_star. Qed.

Lemma replace_code_inert fn s :
  JS.every (JS.isNot "`") s = true -> JS.replace Renderer.matchCode fn s = s.
Proof. apply replace_no_match, matchCode_no_tick. Qed.

Lemma inert_no_star s :
  JS.every Renderer.isInert s = true -> JS.every (JS.isNot "*") s = true.
Proof.
  apply every_impl. unfold Renderer.isInert. intros c H.
  now apply andb_prop in H as [H _].
Qed.

Lemma inert_no_tick s :
  JS.every Renderer.isInert s = true -> JS.every (JS.isNot "`") s = true.
Proof.
  apply every_impl. unfold Renderer.isInert. intros c H.
  now apply andb_prop in H as [_ H].
Qed.

(** a line without heading, asterisk and backtick is rendered as it is *)
Lemma render_inert line isActive :
  Renderer.isHeading line = false -> JS.every Renderer.isInert line = true ->
  Renderer.renderMarkdownLine line isActive = line.
Proof.
  intros Hh Hi. unfold Renderer.renderMarkdownLine. rewrite Hh.
  destruct isActive;
    rewrite replace_bold_inert by (now apply inert_no_star);
    now rewrite replace_code_inert by (now apply inert_no_tick).
Qed.

Lemma replaceAll_skip matchAt fn p : forall k r,
  JS.replaceAll matchAt fn (String.length p + k) (p ++ r)
  = JS.replaceAll matchAt fn k r.
Proof.
  induction p as [|c p IH]; intros k r; simpl; [reflexivity|].
  apply IH.
Qed.

Lemma replaceAll_empty matchAt fn k :
  JS.replaceAll matchAt fn k EmptyString = EmptyString.
Proof. reflexivity. Qed.

Lemma spanNonTick_closed c r :
  JS.every (JS.isNot "`") c = true ->
  Renderer.spanNonTick (c ++ String "`" r) = (c, String "`" r).
Proof.
  induction c as [|x c IH]; simpl; [reflexivity|].
  intros H. apply andb_prop in H as [Hx Hc].
  unfold JS.isNot in Hx. apply negb_true_iff in Hx.
  now rewrite Hx, IH.
Qed.

(** one code pair, nothing else on the line *)
Lemma replace_code_pair fn c :
  c <> EmptyString -> JS.every (JS.isNot "`") c = true ->
  JS.replace Renderer.matchCode fn (String "`" (c ++ "`")) = fn c.
Proof.
  intros Hne Hc. unfold JS.replace. simpl.
  rewrite (spanNonTick_closed c EmptyString Hc).
  destruct c as [|x c]; [congruence|].
  cbn [Nat.pred Nat.add].
  replace (S (String.length (String x c)))
    with (String.length (String x c ++ "`") + 0)
    by (rewrite length_append; simpl; lia).
  rewrite <- (append_empty_r (String x c ++ "`")) at 2.
  rewrite replaceAll_skip. simpl. apply append_empty_r.
Qed.

Lemma lazyUntilStars_step c r :
  Renderer.lazyUntilStars (String c r)
  = if JS.isLineTerminator c then None
    else if JS.startsWith "**" r then Some (String c EmptyString, 3)
         else match Renderer.lazyUntilStars r with
              | Some (g, n) => Some (String c g, S n)
              | None => None
              end.
Proof. reflexivity. Qed.

Lemma lazyUntilStars_closed t :
  t <> EmptyString ->
  JS.every (fun c => JS.isNot "*" c && negb (JS.isLineTerminator c)) t = true ->
  Renderer.lazyUntilStars (t ++ "**") = Some (t, String.length t + 2).
Proof.
  induction t as [|x t IH]; [congruence|].
  intros _ H. cbn [JS.every] in H. apply andb_prop in H as [Hx Ht].
  apply andb_prop in Hx as [Hstar Hterm]. apply negb_true_iff in Hterm.
  change (String x t ++ "**") with (String x (t ++ "**")).
  rewrite lazyUntilStars_step, Hterm.
  destruct t as [|y t]; [reflexivity|].
  assert (Hy : JS.startsWith "**" (String y t ++ "**") = false).
  { cbn [JS.every] in Ht. apply andb_prop in Ht as [Hy _].
    apply andb_prop in Hy as [Hy _]. unfold JS.isNot in Hy.
    apply negb_true_iff in Hy. cbn [JS.startsWith append].
    rewrite Ascii.eqb_sym. now rewrite Hy. }
  rewrite Hy, IH; [|discriminate | exact Ht].
  cbn [String.length]. reflexivity.
Qed.

(** one bold pair, nothing else on the line *)
Lemma replace_bold_pair fn t :
  t <> EmptyString ->
  JS.every (fun c => JS.isNot "*" c && negb (JS.isLineTerminator c)) t = true ->
  JS.replace Renderer.matchBold fn ("**" ++ t ++ "**") = fn t.
Proof.
  intros Hne Ht. unfold JS.replace, Renderer.matchBold. simpl.
  rewrite (lazyUntilStars_closed t Hne Ht).
  cbn [Nat.pred Nat.add].
  destruct t as [|x t]; [congruence|]. simpl.
  replace (String.length t + 2) with (String.length (t ++ "**") + 0)
    by (rewrite length_append; simpl; lia).
  rewrite <- (append_empty_r (t ++ "**")) at 2.
  rewrite replaceAll_skip. simpl. apply append_empty_r.
Qed.

Lemma escapeHTML_append a b :
  Renderer.escapeHTML (a ++ b) = Renderer.escapeHTML a ++ Renderer.escapeHTML b.
Proof.
  induction a as [|c a IH]; simpl; [reflexivity|].
  now rewrite IH, append_assoc.
Qed.

(** the escaped text holds no angle bracket and no quote *)
Lemma escapeHTML_clean s :
  JS.every (fun c => negb (Renderer.isMarkup c)) (Renderer.escapeHTML s) = true.
Proof.
  induction s as [|c s IH]; simpl; [reflexivity|].
  rewrite every_append, IH, andb_true_r.
  unfold Renderer.escapeChar.
  destruct (Ascii.eqb_spec c "&"); [reflexivity|].
  destruct (Ascii.eqb_spec c "<"); [reflexivity|].
  destruct (Ascii.eqb_spec c ">"); [reflexivity|].
  destruct (Ascii.eqb_spec c Renderer.dquote); [reflexivity|].
  destruct (Ascii.eqb_spec c "'"); [reflexivity|].
  simpl. unfold Renderer.isMarkup.
  rewrite andb_true_r.
  repeat match goal with
         | H : c <> _ |- _ => apply Ascii.eqb_neq in H; rewrite H; clear H
         end.
  reflexivity.
Qed.

End RendererFacts.

(** ** The editor surface *)

Section DomFacts.

Import Dom.

Lemma parseHTML_parseFrom html : parseHTML html = Dom.parseFrom [] [] html.
Proof. reflexivity. Qed.


Lemma tokenAt_data c r : isData c = true -> tokenAt (String c r) = Some (TChar c, 1).
Proof.
  intros H. unfold tokenAt. rewrite H.
  unfold isData in H. apply negb_true_iff in H.
  apply orb_false_elim in H as [H _]. apply orb_false_elim in H as [H _].
  apply orb_false_elim in H as [H1 H2]. now rewrite H1, H2.
Qed.

Lemma parseFrom_data c r cur stack :
  isData c = true ->
  Dom.parseFrom cur stack (String c r) = Dom.parseFrom (addChar c cur) stack r.
Proof.
  intros H. unfold Dom.parseFrom. cbn [tokenize].
  rewrite (tokenAt_data c r H). cbn [Nat.pred].
  destruct (tokenize 0 r); reflexivity.
Qed.

Lemma parseFrom_text l : forall r cur stack,
  JS.every isData l = true ->
  Dom.parseFrom cur stack (l ++ r) = Dom.parseFrom (Dom.addText l cur) stack r.
Proof.
  induction l as [|c l IH]; intros r cur stack H; [reflexivity|].
  cbn [JS.every] in H. apply andb_prop in H as [Hc Hl].
  cbn [append Dom.addText]. rewrite parseFrom_data by exact Hc.
  now apply IH.
Qed.










Lemma every_plain_data l : JS.every Dom.isPlain l = true -> JS.every isData l = true.
Proof.
  apply every_impl. unfold Dom.isPlain. intros c H.
  now apply andb_prop in H as [H _].
Qed.

Lemma every_plain_inert l :
  JS.every Dom.isPlain l = true -> JS.every Renderer.isInert l = true.
Proof.
  apply every_impl. unfold Dom.isPlain. intros c H.
  now apply andb_prop in H as [_ H].
Qed.




End DomFacts.




(** ** The editor surface: headings and code *)

Section SurfaceFacts.

Import Dom.

Lemma addText_onto l : forall d before,
  addText l (Text d :: before) = Text (d ++ l) :: before.
Proof.
  induction l as [|c l IH]; intros d before; simpl.
  - now rewrite append_empty_r.
  - rewrite IH, append_assoc. reflexivity.
Qed.

(** character data in an element without children makes one text node *)
Lemma addText_fresh l : l <> EmptyString -> addText l [] = [Text l].
Proof.
  destruct l as [|c l]; [congruence|]. intros _. simpl.
  now rewrite addText_onto.
Qed.

Lemma isHeading_shape line :
  Renderer.isHeading line = true ->
  exists c rest, line = String "#" (String c rest) /\ JS.isSpace c = true.
Proof.
  destruct line as [|c1 [|c2 rest]]; try discriminate.
  unfold Renderer.isHeading. intros H. apply andb_prop in H as [H1 H2].
  apply Ascii.eqb_eq in H1. subst c1. now exists c2, rest.
Qed.

(** the two start tags and the hash of a heading line *)
Lemma heading_open (isActive : bool) tail :
  let hashStyle := if isActive then Renderer.hashActiveStyle
                   else Renderer.hashInactiveStyle in
  parseFrom [] []
    ("<span style='" ++ hashStyle ++ "'>#</span><span style='"
       ++ Renderer.headingStyle ++ "'>" ++ tail)
  = parseFrom []
      [ {| ftag := "span"; fstyle := Renderer.headingStyle;
           fbefore := [Elem "span" hashStyle [Text "#"]] |} ] tail.
Proof.
  destruct isActive; unfold parseFrom; simpl;
    destruct (tokenize 0 tail); reflexivity.
Qed.

(** the surface of a heading line: the hash in its own span, the rest of
    the line in the heading span *)
Lemma heading_surface line isActive :
  Renderer.isHeading line = true ->
  JS.every isData (JS.sliceFrom 1 line) = true ->
  parseHTML (Renderer.renderMarkdownLine line isActive)
  = Some [ Elem "span" (if isActive then Renderer.hashActiveStyle
                        else Renderer.hashInactiveStyle) [Text "#"];
           Elem "span" Renderer.headingStyle [Text (JS.sliceFrom 1 line)] ].
Proof.
  intros Hh Hd. unfold Renderer.renderMarkdownLine. rewrite Hh.
  destruct (isHeading_shape line Hh) as (c & rest & -> & Hc).
  cbn [JS.sliceFrom] in *.
  rewrite parseHTML_parseFrom.
  rewrite (heading_open isActive (String c rest ++ "</span>")).
  rewrite parseFrom_text by exact Hd.
  rewrite addText_fresh by discriminate. reflexivity.
Qed.

End SurfaceFacts.

(** C4, as stated, fails on its first half: inactive, ["# Heading"]
    shows the eight characters of [" Heading"], not the seven of
    ["Heading"]. *)
Lemma heading_counts_counterexample :
  option_map Dom.nonHiddenCount
    (Dom.parseHTML (Renderer.renderMarkdownLine "# Heading" false)) = Some 8
  /\ option_map Dom.nonHiddenCount
       (Dom.parseHTML (Renderer.renderMarkdownLine "# Heading" false))
     <> Some (String.length "Heading").
Proof. split; [reflexivity | discriminate]. Qed.

(** C4, amended.  For a heading line whose text is character data,
    ["# Heading"] among them: rendered inactive, the non-hidden
    characters are those of the line without its hash, the blank behind
    the hash included ([length line - 1], 8 for ["# Heading"]); rendered
    active, they are those of the whole line ([length line], 9). *)
Theorem heading_counts (line : string) :
  Renderer.isHeading line = true ->
  JS.every Dom.isData (JS.sliceFrom 1 line) = true ->
  option_map Dom.nonHiddenCount
    (Dom.parseHTML (Renderer.renderMarkdownLine line false))
  = Some (String.length line - 1)
  /\ option_map Dom.nonHiddenCount
       (Dom.parseHTML (Renderer.renderMarkdownLine line true))
     = Some (String.length line).
Proof.
  intros Hh Hd. rewrite !heading_surface by assumption.
  destruct (isHeading_shape line Hh) as (c & rest & -> & Hc).
  cbn [option_map JS.sliceFrom String.length].
  split; f_equal.
  - unfold Dom.nonHiddenCount. simpl. lia.
  - unfold Dom.nonHiddenCount. simpl. lia.
Qed.

Section EscapingFacts.

Import Dom.

Lemma parseFrom_charRef (c : ascii) r cur stack :
  Renderer.isMarkup c = true \/ c = "&"%char ->
  parseFrom cur stack (Renderer.escapeChar c ++ r)
  = parseFrom (addChar c cur) stack r.
Proof.
  unfold Renderer.isMarkup. intros H.
  assert (Hc : c = "&"%char \/ c = "<"%char \/ c = ">"%char
               \/ c = Renderer.dquote \/ c = "'"%char).
  { destruct H as [H| ->]; [|now left].
    repeat (apply orb_prop in H as [H|H]);
      apply Ascii.eqb_eq in H; subst; auto. }
  destruct Hc as [->|[->|[->|[->| ->]]]];
    unfold parseFrom; simpl; destruct (tokenize 0 r); reflexivity.
Qed.

Lemma escapeChar_data c :
  Renderer.isMarkup c = false -> c <> "&"%char ->
  Renderer.escapeChar c = String c EmptyString.
Proof.
  unfold Renderer.isMarkup, Renderer.escapeChar. intros H Hamp.
  apply orb_false_elim in H as [H H4]. apply orb_false_elim in H as [H H3].
  apply orb_false_elim in H as [H1 H2].
  apply Ascii.eqb_neq in Hamp. now rewrite Hamp, H1, H2, H3, H4.
Qed.

(** the browser reads escaped text back as the text *)
Lemma parseFrom_escaped t : forall r cur stack,
  JS.every Dom.isReadable t = true ->
  parseFrom cur stack (Renderer.escapeHTML t ++ r)
  = parseFrom (addText t cur) stack r.
Proof.
  induction t as [|c t IH]; intros r cur stack H; [reflexivity|].
  cbn [JS.every] in H. apply andb_prop in H as [Hc Ht].
  cbn [Renderer.escapeHTML addText]. rewrite append_assoc.
  destruct (Renderer.isMarkup c) eqn:Hm.
  { rewrite parseFrom_charRef by now left. now apply IH. }
  destruct (Ascii.eqb_spec c "&") as [->|Hamp].
  { rewrite parseFrom_charRef by now right. now apply IH. }
  rewrite escapeChar_data by assumption.
  cbn [append]. rewrite parseFrom_data; [now apply IH|].
  unfold isData. unfold Dom.isReadable in Hc. apply negb_true_iff in Hc.
  apply orb_false_elim in Hc as [Hcr Hz].
  unfold Renderer.isMarkup in Hm.
  apply orb_false_elim in Hm as [Hm _]. apply orb_false_elim in Hm as [Hm _].
  apply orb_false_elim in Hm as [Hlt _].
  apply Ascii.eqb_neq in Hamp. now rewrite Hlt, Hamp, Hcr, Hz.
Qed.

Lemma code_open tail :
  parseFrom [] [] ("<code style='" ++ Renderer.codeStyle ++ "'>" ++ tail)
  = parseFrom [] [ {| ftag := "code"; fstyle := Renderer.codeStyle;
                      fbefore := [] |} ] tail.
Proof.
  unfold parseFrom; simpl; destruct (tokenize 0 tail); reflexivity.
Qed.

(** the surface of an inactive code span holds the code as typed *)
Lemma code_surface t :
  t <> EmptyString -> JS.every Dom.isReadable t = true ->
  parseHTML (Renderer.codeInactive t)
  = Some [Elem "code" Renderer.codeStyle [Text t]].
Proof.
  intros Hne Hr. rewrite parseHTML_parseFrom. unfold Renderer.codeInactive.
  rewrite (code_open (Renderer.escapeHTML t ++ "</code>")).
  rewrite parseFrom_escaped by exact Hr.
  rewrite addText_fresh by exact Hne. reflexivity.
Qed.

Lemma every_inert_literal t :
  JS.every Renderer.isInert t = true ->
  JS.every (JS.isNot "*") t = true /\ JS.every (JS.isNot "`") t = true.
Proof. intros H. split; [now apply inert_no_star | now apply inert_no_tick]. Qed.

Lemma isHeading_other c r :
  c <> "#"%char -> Renderer.isHeading (String c r) = false.
Proof.
  intros H. apply Ascii.eqb_neq in H. destruct r; [reflexivity|].
  unfold Renderer.isHeading. now rewrite H.
Qed.

Lemma render_code_pair t isActive :
  t <> EmptyString -> JS.every Renderer.isInert t = true ->
  Renderer.renderMarkdownLine (String "`" (t ++ "`")) isActive
  = if isActive then Renderer.codeActive t else Renderer.codeInactive t.
Proof.
  intros Hne Hi. destruct (every_inert_literal t Hi) as [Hs Hk].
  unfold Renderer.renderMarkdownLine.
  rewrite isHeading_other by discriminate.
  assert (Hline : JS.every (JS.isNot "*") (String "`" (t ++ "`")) = true).
  { cbn [JS.every]. rewrite every_append, Hs. reflexivity. }
  destruct isActive; rewrite replace_bold_inert by exact Hline;
    now apply replace_code_pair.
Qed.

Lemma render_bold_pair t isActive :
  t <> EmptyString -> JS.every Renderer.isInert t = true ->
  JS.every (fun c => negb (JS.isLineTerminator c)) t = true ->
  Renderer.renderMarkdownLine ("**" ++ t ++ "**") isActive
  = if isActive then Renderer.boldActive t else Renderer.boldInactive t.
Proof.
  intros Hne Hi Hterm. destruct (every_inert_literal t Hi) as [Hs Hk].
  unfold Renderer.renderMarkdownLine.
  replace (Renderer.isHeading ("**" ++ t ++ "**")) with false
    by (symmetry; apply (isHeading_other "*"); discriminate).
  assert (Hpair : JS.every (fun c => JS.isNot "*" c
                                     && negb (JS.isLineTerminator c)) t = true).
  { clear Hne Hi Hk. induction t as [|c t IH]; [reflexivity|].
    cbn [JS.every] in *. apply andb_prop in Hs as [Hc Hs].
    apply andb_prop in Hterm as [Hc' Ht].
    now rewrite Hc, Hc', IH. }
  destruct isActive; rewrite replace_bold_pair by assumption;
    apply replace_code_inert.
  - unfold Renderer.boldActive. rewrite !every_append, Hk. reflexivity.
  - unfold Renderer.boldInactive. rewrite !every_append, Hk. reflexivity.
Qed.

End EscapingFacts.

(** The line of the claim. *)
Lemma heading_counts_witness :
  Renderer.isHeading "# Heading" = true
  /\ JS.every Dom.isData (JS.sliceFrom 1 "# Heading") = true
  /\ option_map Dom.nonHiddenCount
       (Dom.parseHTML (Renderer.renderMarkdownLine "# Heading" false))
     = Some 8
  /\ option_map Dom.nonHiddenCount
       (Dom.parseHTML (Renderer.renderMarkdownLine "# Heading" true))
     = Some 9.
Proof.
  split; [reflexivity|]. split; [reflexivity|].
  apply (heading_counts "# Heading"); reflexivity.
Defined.

(** C7.  Plain text, heading text and bold text reach the markup as
    typed; only the code branch calls [escapeHTML].  The escaped form of
    [a<b] is [a&lt;b], the renderer emits [a<b]; a line that reads [<br>]
    becomes a line break of the surface, which then carries no character
    for a document of four. *)
Theorem unescaped_text_reaches_markup :
  Renderer.renderMarkdownLine "a<b" false = "a<b"
  /\ Renderer.escapeHTML "a<b" = "a&lt;b"
  /\ Renderer.renderMarkdownLine "# <i>" false
     = "<span style='opacity:0;visibility:hidden;user-select:none;display:inline-block;width:0;'>#</span><span style='font-weight:700;font-size:1.3em;'> <i></span>"
  /\ Renderer.renderMarkdownLine "**<&**" false
     = "<strong style='font-weight:800;'><&</strong>"
  /\ Dom.parseHTML (Renderer.markdownToHTML "<br>" 0)
     = Some [Dom.Elem "br" "" []]
  /\ option_map (fun el => Caret.textLength (Dom.leavesOf el))
       (Dom.parseHTML (Renderer.markdownToHTML "<br>" 0)) = Some 0.
Proof. repeat split. Qed.

(** What the renderer does with a text [t] without asterisk, backtick
    and line terminator that is not itself a heading line.  As code, in
    both renders, [t] is placed as [escapeHTML t], which holds no angle
    bracket and no quote, and which the surface reads back as [t]; as
    heading text, as bold text and as plain text [t] is placed as it
    is. *)
Theorem escaping_code_only (t : string) (isActive : bool) :
  t <> EmptyString ->
  JS.every Renderer.isInert t = true ->
  JS.every (fun c => negb (JS.isLineTerminator c)) t = true ->
  JS.every Dom.isReadable t = true ->
  Renderer.isHeading t = false ->
  Renderer.renderMarkdownLine (String "`" (t ++ "`")) isActive
  = (if isActive
     then "<span style='" ++ Renderer.cueStyle ++ "'></span><code style='"
            ++ Renderer.codeStyle ++ "'>" ++ Renderer.escapeHTML t
            ++ "</code><span style='" ++ Renderer.cueStyle ++ "'></span>"
     else "<code style='" ++ Renderer.codeStyle ++ "'>"
            ++ Renderer.escapeHTML t ++ "</code>")
  /\ JS.every (fun c => negb (Renderer.isMarkup c)) (Renderer.escapeHTML t) = true
  /\ Dom.parseHTML (Renderer.renderMarkdownLine (String "`" (t ++ "`")) false)
     = Some [Dom.Elem "code" Renderer.codeStyle [Dom.Text t]]
  /\ Renderer.renderMarkdownLine ("# " ++ t) isActive
     = "<span style='"
         ++ (if isActive then Renderer.hashActiveStyle
             else Renderer.hashInactiveStyle)
         ++ "'>#</span><span style='" ++ Renderer.headingStyle ++ "'> "
         ++ t ++ "</span>"
  /\ Renderer.renderMarkdownLine ("**" ++ t ++ "**") isActive
     = (if isActive
        then "<span style='" ++ Renderer.cueStyle ++ "'>**</span><strong style='"
               ++ Renderer.strongStyle ++ "'>" ++ t
               ++ "</strong><span style='" ++ Renderer.cueStyle ++ "'>**</span>"
        else "<strong style='" ++ Renderer.strongStyle ++ "'>" ++ t
               ++ "</strong>")
  /\ Renderer.renderMarkdownLine t isActive = t.
Proof.
  intros Hne Hi Hterm Hread Hh.
  split; [exact (render_code_pair t isActive Hne Hi)|].
  split; [apply escapeHTML_clean|].
  split.
  { rewrite (render_code_pair t false Hne Hi). now apply code_surface. }
  split; [destruct isActive; reflexivity|].
  split; [exact (render_bold_pair t isActive Hne Hi Hterm)|].
  now apply render_inert.
Qed.

(** A text with markup in it. *)
Lemma escaping_code_only_witness :
  "a<b>&" <> EmptyString
  /\ JS.every Renderer.isInert "a<b>&" = true
  /\ JS.every (fun c => negb (JS.isLineTerminator c)) "a<b>&" = true
  /\ JS.every Dom.isReadable "a<b>&" = true
  /\ Renderer.isHeading "a<b>&" = false
  /\ Renderer.renderMarkdownLine "`a<b>&`" false
     = "<code style='background:#f1f5f9;padding:2px 4px;border-radius:4px;'>a&lt;b&gt;&amp;</code>"
  /\ Dom.parseHTML (Renderer.renderMarkdownLine "`a<b>&`" false)
     = Some [Dom.Elem "code" Renderer.codeStyle [Dom.Text "a<b>&"]]
  /\ Renderer.renderMarkdownLine "**a<b>&**" false
     = "<strong style='font-weight:800;'>a<b>&</strong>"
  /\ Renderer.renderMarkdownLine "a<b>&" false = "a<b>&".
Proof.
  assert (Hne : "a<b>&" <> EmptyString) by discriminate.
  destruct (escaping_code_only "a<b>&" false Hne eq_refl eq_refl eq_refl eq_refl)
    as (Hc & _ & Hs & _ & Hb & Hp).
  repeat (split; [first [exact Hne | reflexivity | assumption]|]).
  exact Hp.
Defined.

(** * Further properties *)

(** ** Lines and offsets *)

Section LineFacts.

Lemma countNewlines_append a b :
  LineModel.countNewlines (a ++ b)
  = LineModel.countNewlines a + LineModel.countNewlines b.
Proof. induction a as [|c a IH]; simpl; [reflexivity | rewrite IH; lia]. Qed.

Lemma countNewlines_free l : JS.newlineFree l -> LineModel.countNewlines l = 0.
Proof.
  unfold JS.newlineFree. induction l as [|c l IH]; simpl; [reflexivity|].
  intros H. apply andb_prop in H as [Hc Hl]. unfold JS.isNot in Hc.
  apply negb_true_iff in Hc. now rewrite Hc, IH.
Qed.

Lemma countNewlines_sliceTo k : forall s,
  LineModel.countNewlines (JS.sliceTo k s) <= LineModel.countNewlines s.
Proof.
  induction k as [|k IH]; intros [|c s]; simpl; try lia.
  specialize (IH s). lia.
Qed.

Lemma sliceTo_append_short k : forall a b,
  k <= String.length a -> JS.sliceTo k (a ++ b) = JS.sliceTo k a.
Proof.
  induction k as [|k IH]; intros [|c a] b H; simpl in *; try reflexivity; try lia.
  rewrite IH; [reflexivity | lia].
Qed.

Lemma sliceTo_append_long a : forall k b,
  String.length a <= k ->
  JS.sliceTo k (a ++ b) = a ++ JS.sliceTo (k - String.length a) b.
Proof.
  induction a as [|c a IH]; intros k b H; simpl in *.
  - now rewrite Nat.sub_0_r.
  - destruct k as [|k]; [lia|]. simpl. rewrite IH; [reflexivity | lia].
Qed.

Lemma split_newlineFree s : Forall JS.newlineFree (JS.split JS.nl s).
Proof.
  induction s as [|c s IH]; simpl.
  - constructor; [reflexivity | constructor].
  - destruct (Ascii.eqb c JS.nl) eqn:Hc.
    + constructor; [reflexivity | exact IH].
    + destruct (JS.split JS.nl s) as [|l ls].
      * constructor; [|constructor]. unfold JS.newlineFree. simpl.
        unfold JS.isNot. now rewrite Hc.
      * inversion IH as [|? ? Hl Hls]; subst. constructor; [|exact Hls].
        unfold JS.newlineFree in *. simpl. unfold JS.isNot at 1. now rewrite Hc.
Qed.

Lemma split_free l : JS.newlineFree l -> JS.split JS.nl l = [l].
Proof.
  unfold JS.newlineFree. induction l as [|c l IH]; [reflexivity|].
  simpl. intros H. apply andb_prop in H as [Hc Hl]. unfold JS.isNot in Hc.
  apply negb_true_iff in Hc. now rewrite Hc, IH.
Qed.

Lemma split_free_append l r :
  JS.newlineFree l ->
  JS.split JS.nl (l ++ String JS.nl r) = l :: JS.split JS.nl r.
Proof.
  intros H. rewrite split_append_newline, split_free by exact H. reflexivity.
Qed.

(** splitting what was joined gives the lines back *)
Lemma split_join (ls : list string) :
  ls <> [] -> Forall JS.newlineFree ls ->
  LineModel.split (LineModel.join ls) = ls.
Proof.
  unfold LineModel.split, LineModel.join.
  induction ls as [|l ls IH]; intros Hne H; [congruence|].
  inversion H as [|? ? Hl Hls]; subst.
  destruct ls as [|l2 ls]; [now apply split_free|].
  change (JS.join (String JS.nl "") (l :: l2 :: ls))
    with (l ++ String JS.nl (JS.join (String JS.nl "") (l2 :: ls))).
  rewrite split_free_append by exact Hl.
  rewrite IH; [reflexivity | discriminate | exact Hls].
Qed.

Lemma loop_in_range (ls : list string) : forall count idx o,
  ls <> [] -> Forall JS.newlineFree ls ->
  count <= o -> o <= count + String.length (LineModel.join ls) ->
  Controller.activeLineLoop ls count idx o
  = idx + LineModel.countNewlines (JS.sliceTo (o - count) (LineModel.join ls)).
Proof.
  induction ls as [|l ls IH]; intros count idx o Hne H Hlo Hhi; [congruence|].
  inversion H as [|? ? Hl Hls]; subst.
  simpl Controller.activeLineLoop.
  destruct (Nat.leb_spec o (count + String.length l)) as [Hin|Hout].
  - assert (Hz : LineModel.countNewlines
                   (JS.sliceTo (o - count) (LineModel.join (l :: ls))) = 0).
    { destruct ls as [|l2 ls].
      - change (LineModel.join [l]) with l.
        pose proof (countNewlines_sliceTo (o - count) l) as Hle.
        rewrite (countNewlines_free l Hl) in Hle. lia.
      - change (LineModel.join (l :: l2 :: ls))
          with (l ++ String JS.nl (LineModel.join (l2 :: ls))).
        rewrite sliceTo_append_short by lia.
        pose proof (countNewlines_sliceTo (o - count) l) as Hle.
        rewrite (countNewlines_free l Hl) in Hle. lia. }
    rewrite Hz. lia.
  - destruct ls as [|l2 ls].
    { change (LineModel.join [l]) with l in Hhi. lia. }
    change (LineModel.join (l :: l2 :: ls))
      with (l ++ String JS.nl (LineModel.join (l2 :: ls))) in *.
    rewrite length_append in Hhi. simpl String.length in Hhi.
    rewrite IH; [|discriminate | exact Hls | lia | lia].
    rewrite sliceTo_append_long by lia.
    rewrite countNewlines_append, (countNewlines_free l Hl).
    destruct (o - count - String.length l) as [|k] eqn:Hk; [lia|].
    simpl. replace (o - (count + String.length l + 1)) with k by lia. lia.
Qed.

Lemma loop_out_of_range (ls : list string) : forall count idx o,
  ls <> [] ->
  count + String.length (LineModel.join ls) < o ->
  Controller.activeLineLoop ls count idx o = idx + List.length ls.
Proof.
  induction ls as [|l ls IH]; intros count idx o Hne Hhi; [congruence|].
  simpl Controller.activeLineLoop.
  destruct ls as [|l2 ls].
  - change (LineModel.join [l]) with l in Hhi.
    destruct (Nat.leb_spec o (count + String.length l)); [lia|]. simpl. lia.
  - change (LineModel.join (l :: l2 :: ls))
      with (l ++ String JS.nl (LineModel.join (l2 :: ls))) in Hhi.
    rewrite length_append in Hhi. simpl String.length in Hhi.
    destruct (Nat.leb_spec o (count + String.length l)); [lia|].
    rewrite IH; [simpl; lia | discriminate | lia].
Qed.

(** no line index is active: every line is rendered inactive *)
Lemma renderLines_none_active (ls : list string) : forall idx activeLineIdx,
  idx + List.length ls <= activeLineIdx ->
  Renderer.renderLines ls idx activeLineIdx
  = map (fun line => Renderer.renderMarkdownLine line false) ls.
Proof.
  induction ls as [|l ls IH]; intros idx a H; [reflexivity|].
  simpl in *. destruct (Nat.eqb_spec idx a) as [He|Hne]; [lia|].
  rewrite IH by lia. reflexivity.
Qed.

End LineFacts.

(** [getActiveLineIndex] for a caret within the text: the index is the
    number of newlines in front of the caret, and it is an index of a
    line. *)
Theorem activeLine_in_range (text : string) (caretOffset : nat) :
  caretOffset <= String.length text ->
  Controller.getActiveLineIndex text caretOffset
  = LineModel.countNewlines (JS.sliceTo caretOffset text)
  /\ Controller.getActiveLineIndex text caretOffset
     < List.length (JS.split JS.nl text).
Proof.
  intros H. unfold Controller.getActiveLineIndex.
  assert (Heq : Controller.activeLineLoop (JS.split JS.nl text) 0 0 caretOffset
                = LineModel.countNewlines (JS.sliceTo caretOffset text)).
  { rewrite loop_in_range.
    - change (JS.split JS.nl text) with (LineModel.split text).
      now rewrite join_split, Nat.sub_0_r.
    - apply split_nonempty.
    - apply split_newlineFree.
    - lia.
    - change (JS.split JS.nl text) with (LineModel.split text).
      rewrite join_split. simpl. exact H. }
  rewrite Heq. split; [reflexivity|].
  change (JS.split JS.nl text) with (LineModel.split text).
  rewrite split_length.
  pose proof (countNewlines_sliceTo caretOffset text). lia.
Qed.

Lemma activeLine_in_range_witness :
  let text := "ab" ++ String JS.nl "cd" in
  4 <= String.length text
  /\ Controller.getActiveLineIndex text 4 = 1
  /\ Controller.getActiveLineIndex text 4 < 2.
Proof.
  cbv zeta. split; [simpl; lia|].
  apply (activeLine_in_range ("ab" ++ String JS.nl "cd") 4). simpl; lia.
Defined.

(** [getActiveLineIndex] for a caret beyond the text: the index is the
    number of lines, one past the last line, and [markdownToHTML] with
    that index renders every line inactive. *)
Theorem activeLine_out_of_range (text : string) (caretOffset : nat) :
  String.length text < caretOffset ->
  Controller.getActiveLineIndex text caretOffset
  = List.length (JS.split JS.nl text)
  /\ Renderer.markdownToHTML text
       (Controller.getActiveLineIndex text caretOffset)
     = JS.join "<br>"
         (map (fun line => Renderer.renderMarkdownLine line false)
              (JS.split JS.nl text)).
Proof.
  intros H. unfold Controller.getActiveLineIndex.
  assert (Heq : Controller.activeLineLoop (JS.split JS.nl text) 0 0 caretOffset
                = List.length (JS.split JS.nl text)).
  { rewrite loop_out_of_range; [reflexivity | apply split_nonempty |].
    change (JS.split JS.nl text) with (LineModel.split text).
    rewrite join_split. simpl. exact H. }
  rewrite Heq. split; [reflexivity|].
  unfold Renderer.markdownToHTML. now rewrite renderLines_none_active.
Qed.

Lemma activeLine_out_of_range_witness :
  let text := "# a" ++ String JS.nl "b" in
  String.length text < 9
  /\ Controller.getActiveLineIndex text 9 = 2
  /\ Renderer.markdownToHTML text (Controller.getActiveLineIndex text 9)
     = "<span style='opacity:0;visibility:hidden;user-select:none;display:inline-block;width:0;'>#</span><span style='font-weight:700;font-size:1.3em;'> a</span><br>b".
Proof.
  cbv zeta. split; [simpl; lia|].
  apply (activeLine_out_of_range ("# a" ++ String JS.nl "b") 9). simpl; lia.
Defined.

(** After Enter the Active Line Index is the one [getActiveLineIndex]
    gives for the new document and the new caret offset. *)
Theorem enter_agrees_with_activeLine (st : Controller.State) (o : nat) :
  o <= String.length (Controller.currentValueRef st) ->
  let st' := Controller.handleKeyDown "Enter" o st in
  Controller.activeLineIdx st'
  = Controller.getActiveLineIndex (Controller.currentValueRef st')
                                  (Controller.lastCaretOffsetRef st').
Proof.
  intros Ho st'.
  set (d := Controller.currentValueRef st).
  assert (Hd : Controller.currentValueRef st'
               = JS.sliceTo o d ++ String JS.nl (JS.sliceFrom o d)) by reflexivity.
  assert (Hc : Controller.lastCaretOffsetRef st' = o + 1) by reflexivity.
  assert (Hlen : String.length (JS.sliceTo o d) = o) by now apply sliceTo_length.
  assert (Hi : Controller.activeLineIdx st'
               = List.length (JS.split JS.nl (JS.sliceTo o d))).
  { subst st'. unfold Controller.handleKeyDown. simpl. fold d.
    rewrite (sliceTo_splice o d _ Ho).
    pose proof (split_nonempty JS.nl (JS.sliceTo o d)) as Hne.
    destruct (JS.split JS.nl (JS.sliceTo o d)); [congruence|]. simpl. lia. }
  rewrite Hi, Hd, Hc.
  destruct (activeLine_in_range
              (JS.sliceTo o d ++ String JS.nl (JS.sliceFrom o d)) (o + 1))
    as [Heq _].
  { rewrite length_append. simpl. lia. }
  rewrite Heq, sliceTo_append_long by lia.
  rewrite Hlen. replace (o + 1 - o) with 1 by lia. simpl JS.sliceTo.
  rewrite countNewlines_append. simpl.
  change (JS.split JS.nl (JS.sliceTo o d)) with (LineModel.split (JS.sliceTo o d)).
  rewrite split_length. lia.
Qed.

Lemma enter_agrees_with_activeLine_witness :
  let st := Controller.init ("ab" ++ String JS.nl "cd") true (fun _ => None) in
  4 <= String.length (Controller.currentValueRef st)
  /\ Controller.activeLineIdx (Controller.handleKeyDown "Enter" 4 st)
     = Controller.getActiveLineIndex
         (Controller.currentValueRef (Controller.handleKeyDown "Enter" 4 st))
         (Controller.lastCaretOffsetRef (Controller.handleKeyDown "Enter" 4 st)).
Proof.
  cbv zeta. split; [simpl; lia|].
  apply (enter_agrees_with_activeLine
           (Controller.init ("ab" ++ String JS.nl "cd") true (fun _ => None)) 4).
  simpl; lia.
Defined.

(** ** Caret translator: clamping, drift, line and column *)

Section CaretMoreFacts.

Import Caret.

Lemma cueLength_app (a b : list Dom.Leaf) :
  cueLength (a ++ b)%list = cueLength a + cueLength b.
Proof. induction a as [|l a IH]; simpl; [reflexivity | rewrite IH; lia]. Qed.

Lemma plainLength_app (a b : list Dom.Leaf) :
  Caret.plainLength (a ++ b)%list = Caret.plainLength a + Caret.plainLength b.
Proof. induction a as [|l a IH]; simpl; [reflexivity | rewrite IH; lia]. Qed.

Lemma text_plain_cue (leaves : list Dom.Leaf) :
  textLength leaves = Caret.plainLength leaves + cueLength leaves.
Proof.
  induction leaves as [|l ls IH]; simpl; [reflexivity|].
  destruct (Dom.cue l); lia.
Qed.

Lemma nonCueCount_plainLength (element : list Dom.Node) :
  Dom.nonCueCount element = Caret.plainLength (Dom.leavesOf element).
Proof.
  unfold Dom.nonCueCount. induction (Dom.leavesOf element) as [|l ls IH];
    simpl; [reflexivity | now rewrite IH].
Qed.

Lemma plainLength_pos (leaves : list Dom.Leaf) :
  0 < Caret.plainLength leaves ->
  existsb (fun l => negb (Dom.cue l)) leaves = true.
Proof.
  induction leaves as [|l ls IH]; simpl; [lia|].
  destruct (Dom.cue l); simpl; [exact IH | reflexivity].
Qed.

(** the walk stops in a text node outside the cue spans whenever the
    offset is within the text it counts *)
Lemma walk_reads (suf : list Dom.Leaf) : forall pre o,
  existsb (fun l => negb (Dom.cue l)) suf = true ->
  Caret.plainLength pre <= o -> o <= Caret.plainLength pre + Caret.plainLength suf ->
  exists j k,
    walk suf (List.length pre) (Caret.plainLength pre) o = Some (InText j k)
    /\ textLength (firstn j (pre ++ suf)%list) + k
       = o + cueLength (firstn j (pre ++ suf)%list).
Proof.
  induction suf as [|l rest IH]; intros pre o Hex Hlo Hhi; [discriminate|].
  simpl in Hhi. simpl walk.
  assert (Hpre : forall x : list Dom.Leaf,
             (pre ++ l :: x)%list = ((pre ++ [l]) ++ x)%list)
    by (intros x; now rewrite <- app_assoc).
  destruct (Dom.cue l) eqn:Hl.
  - simpl in Hex. rewrite Hl in Hex. simpl in Hex.
    destruct (IH (pre ++ [l])%list o Hex) as (j & k & Hw & Hk).
    + rewrite plainLength_app. simpl. rewrite Hl. lia.
    + rewrite plainLength_app. simpl. rewrite Hl. lia.
    + rewrite length_app, plainLength_app in Hw. simpl in Hw.
      rewrite Hl in Hw. rewrite !Nat.add_0_r, Nat.add_1_r in Hw.
      exists j, k. rewrite Hpre. split; assumption.
  - destruct (Nat.leb_spec o (Caret.plainLength pre + String.length (Dom.data l)))
      as [Hin|Hout].
    + exists (List.length pre), (Nat.max 0 (o - Caret.plainLength pre)).
      split; [reflexivity|].
      rewrite firstn_app, Nat.sub_diag, firstn_all. simpl.
      rewrite app_nil_r, text_plain_cue. lia.
    + destruct (IH (pre ++ [l])%list o) as (j & k & Hw & Hk).
      * apply plainLength_pos. lia.
      * rewrite plainLength_app. simpl. rewrite Hl. lia.
      * rewrite plainLength_app. simpl. rewrite Hl. lia.
      * rewrite length_app, plainLength_app in Hw. simpl in Hw.
        rewrite Hl in Hw. rewrite Nat.add_0_r, Nat.add_1_r in Hw.
        exists j, k. rewrite Hpre. split; assumption.
Qed.

(** beyond the text it counts the walk finds nothing *)
Lemma walk_misses (suf : list Dom.Leaf) : forall i current o,
  current + Caret.plainLength suf < o -> walk suf i current o = None.
Proof.
  induction suf as [|l rest IH]; intros i current o H; [reflexivity|].
  simpl in *. destruct (Dom.cue l); [apply IH; lia|].
  destruct (Nat.leb_spec o (current + String.length (Dom.data l))); [lia|].
  apply IH. lia.
Qed.

Lemma lineColWalk_nodes (leaves : list Dom.Leaf) lineIdx col : forall n,
  Forall (fun l => JS.newlineFree (Dom.data l)) leaves ->
  n <= lineIdx ->
  lineColWalk leaves n n lineIdx col
  = match nth_error leaves (lineIdx - n) with
    | Some l => Some (InText lineIdx (Nat.min col (String.length (Dom.data l))))
    | None => None
    end.
Proof.
  induction leaves as [|l ls IH]; intros n H Hn.
  - simpl. now destruct (lineIdx - n).
  - inversion H as [|? ? Hl Hls]; subst. simpl lineColWalk.
    rewrite (split_free _ Hl). simpl lineColPieces.
    destruct (Nat.eqb_spec n lineIdx) as [->|Hne].
    + now rewrite Nat.sub_diag.
    + rewrite IH by (assumption || lia).
      replace (lineIdx - n) with (S (lineIdx - S n)) by lia. reflexivity.
Qed.

End CaretMoreFacts.

(** [setCaretToOffset] followed by [getCaretCharacterOffsetWithin]: when
    the offset is within the text outside the cue spans, the caret lands
    in a text node and reads back as the offset plus the cue text in
    front of that node. *)
Theorem caret_reads_back_with_drift (element : list Dom.Node) (o : nat)
        (sel : option Caret.Point) :
  existsb (fun l => negb (Dom.cue l)) (Dom.leavesOf element) = true ->
  o <= Dom.nonCueCount element ->
  exists j k,
    Caret.setCaretToOffset element o sel = Some (Caret.InText j k)
    /\ Caret.getCaretCharacterOffsetWithin element
         (Caret.setCaretToOffset element o sel)
       = o + Caret.cueLength (firstn j (Dom.leavesOf element)).
Proof.
  intros Hex Ho. rewrite nonCueCount_plainLength in Ho.
  destruct (walk_reads (Dom.leavesOf element) [] o Hex) as (j & k & Hw & Hk);
    [exact (Nat.le_0_l o) | exact Ho |].
  simpl in Hw, Hk. exists j, k. unfold Caret.setCaretToOffset. rewrite Hw.
  split; [reflexivity | exact Hk].
Qed.

Lemma caret_reads_back_with_drift_witness :
  let element :=
    [ Dom.Elem "span" Renderer.cueStyle [Dom.Text "**"];
      Dom.Elem "strong" Renderer.strongStyle [Dom.Text "b"];
      Dom.Elem "span" Renderer.cueStyle [Dom.Text "**"]; Dom.Text " c" ] in
  Dom.parseHTML (Renderer.markdownToHTML "**b** c" 0) = Some element
  /\ existsb (fun l => negb (Dom.cue l)) (Dom.leavesOf element) = true
  /\ 2 <= Dom.nonCueCount element
  /\ exists j k,
       Caret.setCaretToOffset element 2 None = Some (Caret.InText j k)
       /\ Caret.getCaretCharacterOffsetWithin element
            (Caret.setCaretToOffset element 2 None)
          = 2 + Caret.cueLength (firstn j (Dom.leavesOf element)).
Proof.
  cbv zeta. split; [reflexivity|]. split; [reflexivity|].
  split; [vm_compute; lia|].
  apply caret_reads_back_with_drift; [reflexivity | vm_compute; lia].
Defined.

(** [setCaretToOffset] beyond the text outside the cue spans: the caret
    goes behind the last child of the editor, where it reads as the
    length of all the text; in an editor without children the selection
    stays as it was. *)
Theorem caret_clamps_to_end (element : list Dom.Node) (o : nat)
        (sel : option Caret.Point) :
  Dom.nonCueCount element < o ->
  Caret.setCaretToOffset element o sel
  = match element with
    | [] => sel
    | _ :: _ => Some Caret.EndOfLastChild
    end
  /\ (element <> [] ->
      Caret.getCaretCharacterOffsetWithin element
        (Caret.setCaretToOffset element o sel)
      = Caret.textLength (Dom.leavesOf element)).
Proof.
  intros Ho. rewrite nonCueCount_plainLength in Ho.
  unfold Caret.setCaretToOffset.
  rewrite walk_misses by exact Ho.
  split; [reflexivity|]. destruct element; [congruence | reflexivity].
Qed.

Lemma caret_clamps_to_end_witness :
  let element := [Dom.Text "ab"; Dom.Elem "br" "" []] in
  Dom.nonCueCount element < 3
  /\ Caret.setCaretToOffset element 3 None = Some Caret.EndOfLastChild
  /\ (element <> [] ->
      Caret.getCaretCharacterOffsetWithin element
        (Caret.setCaretToOffset element 3 None) = 2).
Proof.
  cbv zeta. split; [vm_compute; lia|].
  apply (caret_clamps_to_end [Dom.Text "ab"; Dom.Elem "br" "" []] 3 None).
  vm_compute; lia.
Defined.

(** [setCaretByLineCol] on a surface whose text nodes hold no newline:
    the line index counts text nodes, not lines.  The caret goes into
    the text node with that index, at the column or at the end of the
    node if the column is beyond it; with fewer text nodes the selection
    stays as it was. *)
Theorem lineCol_counts_text_nodes (element : list Dom.Node)
        (lineIdx col : nat) (sel : option Caret.Point) :
  forallb (fun l => JS.every (JS.isNot JS.nl) (Dom.data l))
          (Dom.leavesOf element) = true ->
  Caret.setCaretByLineCol element lineIdx col sel
  = match nth_error (Dom.leavesOf element) lineIdx with
    | Some l =>
        Some (Caret.InText lineIdx (Nat.min col (String.length (Dom.data l))))
    | None => sel
    end.
Proof.
  intros H. unfold Caret.setCaretByLineCol.
  rewrite lineColWalk_nodes; [| |lia].
  - rewrite Nat.sub_0_r.
    now destruct (nth_error (Dom.leavesOf element) lineIdx).
  - apply Forall_forall. intros l Hl.
    exact (proj1 (forallb_forall _ _) H l Hl).
Qed.

(** The surface of a heading line followed by the line [b]: index 1 is
    the text of the heading, not the second line. *)
Lemma lineCol_counts_text_nodes_witness :
  let element :=
    [ Dom.Elem "span" Renderer.hashInactiveStyle [Dom.Text "#"];
      Dom.Elem "span" Renderer.headingStyle [Dom.Text " a"];
      Dom.Elem "br" "" []; Dom.Text "b" ] in
  Dom.parseHTML (Renderer.markdownToHTML ("# a" ++ String JS.nl "b") 1)
  = Some element
  /\ forallb (fun l => JS.every (JS.isNot JS.nl) (Dom.data l))
             (Dom.leavesOf element) = true
  /\ Caret.setCaretByLineCol element 1 0 None = Some (Caret.InText 1 0)
  /\ Caret.setCaretByLineCol element 3 0 None = None.
Proof.
  cbv zeta. split; [reflexivity|]. split; [reflexivity|].
  split; [|reflexivity].
  match goal with |- Caret.setCaretByLineCol ?el _ _ _ = _ =>
    exact (lineCol_counts_text_nodes el 1 0 None eq_refl)
  end.
Defined.

(** ** Renderer: escaping and malformed constructs *)

Section EscapeFacts.

Lemma escapeChar_cases c :
  (c = "&"%char /\ Renderer.escapeChar c = "&amp;")
  \/ (c = "<"%char /\ Renderer.escapeChar c = "&lt;")
  \/ (c = ">"%char /\ Renderer.escapeChar c = "&gt;")
  \/ (c = Renderer.dquote /\ Renderer.escapeChar c = "&quot;")
  \/ (c = "'"%char /\ Renderer.escapeChar c = "&#39;")
  \/ (Renderer.isSpecial c = false /\ Renderer.escapeChar c = String c EmptyString).
Proof.
  unfold Renderer.escapeChar, Renderer.isSpecial, Renderer.isMarkup.
  destruct (Ascii.eqb_spec c "&"); [subst; auto|].
  destruct (Ascii.eqb_spec c "<"); [subst; auto 6|].
  destruct (Ascii.eqb_spec c ">"); [subst; auto 6|].
  destruct (Ascii.eqb_spec c Renderer.dquote); [subst; auto 6|].
  destruct (Ascii.eqb_spec c "'"); [subst; auto 7|].
  repeat right. split; reflexivity.
Qed.

Lemma isSpecial_amp c : Renderer.isSpecial c = false -> c <> "&"%char.
Proof.
  unfold Renderer.isSpecial. intros H ->. discriminate H.
Qed.

(** the replacements are prefix-free *)
Lemma escapeChar_prefix a b x y :
  Renderer.escapeChar a ++ x = Renderer.escapeChar b ++ y -> a = b /\ x = y.
Proof.
  destruct (escapeChar_cases a) as [[-> ->]|[[-> ->]|[[-> ->]|[[-> ->]|[[-> ->]|[Ha ->]]]]]];
  destruct (escapeChar_cases b) as [[-> ->]|[[-> ->]|[[-> ->]|[[-> ->]|[[-> ->]|[Hb ->]]]]]];
  simpl; intros H; inversion H; subst;
    try (split; reflexivity);
    try (vm_compute in Ha; discriminate Ha);
    try (vm_compute in Hb; discriminate Hb).
Qed.

Lemma escapeChar_nonempty c x : Renderer.escapeChar c ++ x <> EmptyString.
Proof.
  destruct (escapeChar_cases c) as [[_ ->]|[[_ ->]|[[_ ->]|[[_ ->]|[[_ ->]|[_ ->]]]]]];
    discriminate.
Qed.

Lemma escapeHTML_length s :
  String.length s <= String.length (Renderer.escapeHTML s).
Proof.
  induction s as [|c s IH]; simpl; [lia|]. rewrite length_append.
  destruct (escapeChar_cases c) as [[_ ->]|[[_ ->]|[[_ ->]|[[_ ->]|[[_ ->]|[_ ->]]]]]];
    simpl; lia.
Qed.

End EscapeFacts.

(** [escapeHTML] loses nothing: different texts have different escaped
    forms. *)
Theorem escapeHTML_injective (a b : string) :
  Renderer.escapeHTML a = Renderer.escapeHTML b -> a = b.
Proof.
  revert b. induction a as [|c a IH]; intros [|d b] H; simpl in H.
  - reflexivity.
  - symmetry in H. now apply escapeChar_nonempty in H.
  - now apply escapeChar_nonempty in H.
  - apply escapeChar_prefix in H as [-> H]. now rewrite (IH b H).
Qed.

Lemma escapeHTML_injective_witness :
  Renderer.escapeHTML "a<b" = Renderer.escapeHTML "a<b" /\ "a<b" = "a<b".
Proof.
  split; [reflexivity|]. apply (escapeHTML_injective "a<b" "a<b"). reflexivity.
Defined.

(** The output of [escapeHTML] holds none of the angle brackets and
    quotes, is never shorter than the input, and is the input itself
    exactly when the input holds none of the five replaced code units. *)
Theorem escapeHTML_output (s : string) :
  JS.every (fun c => negb (Renderer.isMarkup c)) (Renderer.escapeHTML s) = true
  /\ String.length s <= String.length (Renderer.escapeHTML s)
  /\ (Renderer.escapeHTML s = s
      <-> JS.every (fun c => negb (Renderer.isSpecial c)) s = true).
Proof.
  split; [apply escapeHTML_clean|]. split; [apply escapeHTML_length|].
  induction s as [|c s IH]; simpl; [split; reflexivity|].
  destruct (escapeChar_cases c)
    as [[-> ->]|[[-> ->]|[[-> ->]|[[-> ->]|[[-> ->]|[Hc ->]]]]]].
  - split; [|discriminate]. intros H. exfalso.
    apply (f_equal String.length) in H. simpl in H.
    pose proof (escapeHTML_length s). lia.
  - split; discriminate.
  - split; discriminate.
  - split; discriminate.
  - split; discriminate.
  - rewrite Hc. simpl. destruct IH as [IH1 IH2]. split.
    + intros H. injection H as H. now apply IH1.
    + intros H. now rewrite (IH2 H).
Qed.

Section MalformedFacts.

Lemma lazyUntilStars_none t :
  JS.every (JS.isNot "*") t = true -> Renderer.lazyUntilStars t = None.
Proof.
  induction t as [|c t IH]; [reflexivity|].
  cbn [JS.every]. intros H. apply andb_prop in H as [_ Ht].
  rewrite lazyUntilStars_step, (IH Ht).
  destruct (JS.isLineTerminator c); [reflexivity|].
  destruct t as [|d t]; [reflexivity|].
  cbn [JS.every] in Ht. apply andb_prop in Ht as [Hd _].
  unfold JS.isNot in Hd. apply negb_true_iff in Hd.
  cbn [JS.startsWith]. rewrite Ascii.eqb_sym, Hd. reflexivity.
Qed.

Lemma spanNonTick_all t :
  JS.every (JS.isNot "`") t = true -> Renderer.spanNonTick t = (t, EmptyString).
Proof.
  induction t as [|c t IH]; [reflexivity|].
  cbn [JS.every]. intros H. apply andb_prop in H as [Hc Ht].
  unfold JS.isNot in Hc. apply negb_true_iff in Hc.
  simpl. now rewrite Hc, (IH Ht).
Qed.

Lemma replace_bold_open fn t :
  JS.every (JS.isNot "*") t = true ->
  JS.replace Renderer.matchBold fn ("**" ++ t) = "**" ++ t.
Proof.
  intros Ht. unfold JS.replace.
  assert (H1 : Renderer.matchBold ("**" ++ t) = None).
  { unfold Renderer.matchBold. cbn [append JS.startsWith JS.sliceFrom].
    rewrite !Ascii.eqb_refl. cbn [andb]. now rewrite lazyUntilStars_none. }
  assert (H2 : Renderer.matchBold (String "*" t) = None).
  { unfold Renderer.matchBold. destruct t as [|d t]; [reflexivity|].
    cbn [JS.every] in Ht. apply andb_prop in Ht as [Hd _].
    unfold JS.isNot in Hd. apply negb_true_iff in Hd.
    cbn [JS.startsWith]. rewrite Ascii.eqb_refl, Ascii.eqb_sym, Hd.
    reflexivity. }
  change ("**" ++ t) with (String "*" (String "*" t)) in *.
  cbn [JS.replaceAll]. rewrite H1. cbn [JS.replaceAll]. rewrite H2.
  f_equal. f_equal. apply (replace_bold_inert fn t Ht).
Qed.

Lemma replace_code_open fn t :
  JS.every (JS.isNot "`") t = true ->
  JS.replace Renderer.matchCode fn (String "`" t) = String "`" t.
Proof.
  intros Ht. unfold JS.replace. cbn [JS.replaceAll].
  assert (H1 : Renderer.matchCode (String "`" t) = None).
  { unfold Renderer.matchCode. rewrite Ascii.eqb_refl, (spanNonTick_all t Ht).
    now destruct t. }
  rewrite H1. f_equal. apply (replace_code_inert fn t Ht).
Qed.

End MalformedFacts.

(** A construct that is opened and not closed stays literal text in both
    renders: two asterisks, or one backtick, in front of a text without
    asterisk and backtick. *)
Theorem unterminated_stays_literal (t : string) (isActive : bool) :
  JS.every Renderer.isInert t = true ->
  Renderer.renderMarkdownLine ("**" ++ t) isActive = "**" ++ t
  /\ Renderer.renderMarkdownLine (String "`" t) isActive = String "`" t.
Proof.
  intros Hi. destruct (every_inert_literal t Hi) as [Hs Hk].
  unfold Renderer.renderMarkdownLine. split.
  - replace (Renderer.isHeading ("**" ++ t)) with false
      by (symmetry; apply (isHeading_other "*"); discriminate).
    destruct isActive; rewrite replace_bold_open by exact Hs;
      apply replace_code_inert; cbn [append JS.every]; now rewrite Hk.
  - rewrite isHeading_other by discriminate.
    assert (Hline : JS.every (JS.isNot "*") (String "`" t) = true)
      by (cbn [JS.every]; now rewrite Hs).
    destruct isActive; rewrite replace_bold_inert by exact Hline;
      now apply replace_code_open.
Qed.

Lemma unterminated_stays_literal_witness :
  JS.every Renderer.isInert "bold <b>" = true
  /\ Renderer.renderMarkdownLine "**bold <b>" true = "**bold <b>"
  /\ Renderer.renderMarkdownLine "`bold <b>" true = "`bold <b>".
Proof.
  split; [reflexivity|].
  apply (unterminated_stays_literal "bold <b>" true). reflexivity.
Defined.

(** ** The editor surface: what the caret walk counts *)

Section CountFacts.

Import Dom.

Lemma bold_open (isActive : bool) tail :
  parseFrom [] []
    ((if isActive
      then "<span style='" ++ Renderer.cueStyle ++ "'>**</span><strong style='"
             ++ Renderer.strongStyle ++ "'>"
      else "<strong style='" ++ Renderer.strongStyle ++ "'>") ++ tail)
  = parseFrom []
      [ {| ftag := "strong"; fstyle := Renderer.strongStyle;
           fbefore := if isActive
                      then [Elem "span" Renderer.cueStyle [Text "**"]]
                      else [] |} ] tail.
Proof.
  destruct isActive; unfold parseFrom; simpl;
    destruct (tokenize 0 tail); reflexivity.
Qed.

(** the surface of a line that is one bold pair *)
Lemma bold_surface (t : string) (isActive : bool) :
  t <> EmptyString -> JS.every isData t = true ->
  parseHTML (if isActive then Renderer.boldActive t else Renderer.boldInactive t)
  = Some (if isActive
          then [ Elem "span" Renderer.cueStyle [Text "**"];
                 Elem "strong" Renderer.strongStyle [Text t];
                 Elem "span" Renderer.cueStyle [Text "**"] ]
          else [ Elem "strong" Renderer.strongStyle [Text t] ]).
Proof.
  intros Hne Hd. rewrite parseHTML_parseFrom.
  destruct isActive.
  - unfold Renderer.boldActive.
    etransitivity;
      [exact (bold_open true
                (t ++ "</strong><span style='" ++ Renderer.cueStyle
                   ++ "'>**</span>"))|].
    rewrite parseFrom_text by exact Hd.
    rewrite addText_fresh by exact Hne. reflexivity.
  - unfold Renderer.boldInactive.
    etransitivity; [exact (bold_open false (t ++ "</strong>"))|].
    rewrite parseFrom_text by exact Hd.
    rewrite addText_fresh by exact Hne. reflexivity.
Qed.

End CountFacts.

(** On a heading line [setCaretToOffset] counts the line without its
    hash, whether the line is active or not, while the surface carries
    the whole line as text. *)
Theorem heading_caret_text (line : string) (isActive : bool) :
  Renderer.isHeading line = true ->
  JS.every Dom.isData (JS.sliceFrom 1 line) = true ->
  exists element,
    Dom.parseHTML (Renderer.renderMarkdownLine line isActive) = Some element
    /\ Dom.nonCueCount element = String.length line - 1
    /\ Caret.textLength (Dom.leavesOf element) = String.length line.
Proof.
  intros Hh Hd. eexists. split; [now apply heading_surface|].
  destruct (isHeading_shape line Hh) as (c & rest & -> & Hc).
  cbn [JS.sliceFrom String.length].
  destruct isActive; unfold Dom.nonCueCount; simpl; split; lia.
Qed.

Lemma heading_caret_text_witness :
  Renderer.isHeading "# Hi" = true
  /\ JS.every Dom.isData (JS.sliceFrom 1 "# Hi") = true
  /\ exists element,
       Dom.parseHTML (Renderer.renderMarkdownLine "# Hi" false) = Some element
       /\ Dom.nonCueCount element = 3
       /\ Caret.textLength (Dom.leavesOf element) = 4.
Proof.
  split; [reflexivity|]. split; [reflexivity|].
  apply (heading_caret_text "# Hi" false); reflexivity.
Defined.

(** On a line that is one bold pair [setCaretToOffset] counts the bold
    text alone in both renders; the active surface carries the four
    asterisks as text of cue spans, the inactive one does not carry them
    at all. *)
Theorem bold_caret_text (t : string) (isActive : bool) :
  t <> EmptyString ->
  JS.every Dom.isPlain t = true ->
  JS.every (fun c => negb (JS.isLineTerminator c)) t = true ->
  exists element,
    Dom.parseHTML (Renderer.renderMarkdownLine ("**" ++ t ++ "**") isActive)
    = Some element
    /\ Dom.nonCueCount element = String.length t
    /\ Caret.textLength (Dom.leavesOf element)
       = if isActive then String.length t + 4 else String.length t.
Proof.
  intros Hne Hp Hterm.
  rewrite render_bold_pair
    by (assumption || now apply every_plain_inert).
  eexists. split; [apply bold_surface; [exact Hne | now apply every_plain_data]|].
  destruct isActive; unfold Dom.nonCueCount; simpl; split; lia.
Qed.

Lemma bold_caret_text_witness :
  "b" <> EmptyString
  /\ JS.every Dom.isPlain "b" = true
  /\ JS.every (fun c => negb (JS.isLineTerminator c)) "b" = true
  /\ exists element,
       Dom.parseHTML (Renderer.renderMarkdownLine "**b**" true) = Some element
       /\ Dom.nonCueCount element = 1
       /\ Caret.textLength (Dom.leavesOf element) = 1 + 4.
Proof.
  split; [discriminate|]. split; [reflexivity|]. split; [reflexivity|].
  apply (bold_caret_text "b" true); [discriminate | reflexivity | reflexivity].
Defined.
